(** * EPaxos instance state machine (epaxos/instance.go)

    A shallow embedding of the per-instance consensus state machine of the
    epaxos package: the message handlers, the state transitions, the
    sequence-number / dependency merge and the execution tie-break.

    Go values are modelled as follows.
    - [pb.ReplicaID], [pb.InstanceNum], [pb.SeqNum]: integers ([Z]); the
      only arithmetic on them is [maxLocalSeq+1], whose wrap-around at the
      width of [pb.SeqNum] is written out ([wrapSeq]).
    - [int] counters: [Z] with the wrap-around of a 64-bit signed integer.
    - [map[pb.Dependency]struct{}]: [option (gset pb.Dependency)], where
      [None] is the nil map (length 0, readable, a write panics).
    - [[]pb.Dependency]: [list pb.Dependency] (duplicates are possible).
    - pointers to a command ([*pb.Command]): [option Command].
    - a method with receiver [inst *instance] is an action of the monad
      [M]: the instance is threaded as state, what the method hands to the
      replica (broadcast, reply, debug log, executor hand-off) is appended
      to an output list, and a Go panic ends the run. *)

From Stdlib Require Import ZArith Lia.
From stdpp Require Import base decidable countable list sorting gmap fin_sets.

Local Open Scope Z_scope.

(** ** The protobuf package [pb] (epaxos/epaxospb) as used by instance.go *)

Module pb.

Definition ReplicaID : Type := Z.
Definition InstanceNum : Type := Z.
Definition SeqNum : Type := Z.

(** [pb.Dependency{ReplicaID, InstanceNum}]: the coordinates of an instance. *)
Record Dependency : Type := mkDependency {
  DepReplicaID : ReplicaID;
  DepInstanceNum : InstanceNum
}.

#[global] Instance Dependency_eq_dec : EqDecision Dependency.
Proof. solve_decision. Defined.

#[global] Instance Dependency_countable : Countable Dependency.
Proof.
  refine (inj_countable' (λ d, (DepReplicaID d, DepInstanceNum d))
                         (λ rn, mkDependency rn.1 rn.2) _).
  by intros [].
Defined.

(** Modelled from the spec: [pb.MaxSeqNum] is not in the instance file; the
    spec reads [seq = max(msg.seq, maxLocalSeq + 1)]. *)
Definition MaxSeqNum (a b : SeqNum) : SeqNum := if a <? b then b else a.

(** Modelled from the spec: the order of [pb.Dependencies] used by
    [sort.Sort] is not in the instance file; the spec sorts dependency
    sequences by [(replica_id ascending, instance_num ascending)]. *)
Definition DependencyLe (a b : Dependency) : Prop :=
  DepReplicaID a < DepReplicaID b
  ∨ (DepReplicaID a = DepReplicaID b ∧ DepInstanceNum a ≤ DepInstanceNum b).

#[global] Instance DependencyLe_dec : RelDecision DependencyLe.
Proof. intros a b. unfold DependencyLe. apply _. Defined.

Section Messages.
Context {Command : Type}.

(** [pb.InstanceState]: the payload shared by PreAccept, Accept and Commit.
    [Command] is a pointer in Go ([*pa.Command], [is.Command = &inst.cmd]);
    [None] is the nil pointer. *)
Record InstanceState : Type := mkInstanceState {
  Command_ : option Command;
  SeqNum_ : SeqNum;
  Deps : list Dependency
}.

Record PreAcceptReply : Type := mkPreAcceptReply {
  UpdatedSeqNum : SeqNum;
  UpdatedDeps : list Dependency
}.

(** The six message kinds; PreAccept, Accept and Commit embed an
    [InstanceState], PreAcceptOK and AcceptOK are empty. *)
Inductive Message : Type :=
  | MsgPreAccept (pa : InstanceState)
  | MsgPreAcceptOK
  | MsgPreAcceptReply (paReply : PreAcceptReply)
  | MsgAccept (a : InstanceState)
  | MsgAcceptOK
  | MsgCommit (c : InstanceState).

End Messages.

Arguments InstanceState : clear implicits.
Arguments PreAcceptReply : clear implicits.
Arguments Message : clear implicits.

End pb.

(** ** instanceState *)

Inductive instanceState : Type :=
  | none | preAccepted | accepted | committed | executed.

#[global] Instance instanceState_eq_dec : EqDecision instanceState.
Proof. solve_decision. Defined.

(** The [iota] values of the constants, which give the order
    none < preAccepted < accepted < committed < executed. *)
Definition iota (s : instanceState) : Z :=
  match s with
  | none => 0 | preAccepted => 1 | accepted => 2 | committed => 3 | executed => 4
  end.

Definition state_le (s1 s2 : instanceState) : Prop := iota s1 ≤ iota s2.

#[global] Instance state_le_dec : RelDecision state_le.
Proof. intros s1 s2. unfold state_le. apply _. Defined.

(** ** Go machine integers *)

(** [x++] and [x + 1] on a Go [int] (64 bits, two's complement). *)
Definition wrapInt (z : Z) : Z := (z + 2 ^ 63) `mod` 2 ^ 64 - 2 ^ 63.

(** Arithmetic on [pb.SeqNum], an unsigned integer of [bits] bits. *)
Definition wrapSeq (bits : N) (z : Z) : Z := z `mod` 2 ^ Z.of_N bits.

(** ** Go maps used as sets of dependencies *)

Abbreviation depsMap := (option (gset pb.Dependency)).

(** [len(m)]: 0 for the nil map. *)
Definition lenMap (m : depsMap) : Z :=
  match m with
  | None => 0
  | Some D => Z.of_nat (size D)
  end.

(** [len(s)] of a slice. *)
Definition lenSlice {A} (s : list A) : Z := Z.of_nat (length s).

(** The members of a map read as a set; ranging over the nil map visits
    nothing. *)
Definition members (m : depsMap) : gset pb.Dependency := default ∅ m.

(** [depSliceFromMap]: the keys of the map, sorted so that the order is
    deterministic. *)
Definition depSliceFromMap (depsMap : depsMap) : list pb.Dependency :=
  merge_sort pb.DependencyLe (elements (members depsMap)).

(** ** The ticking timer *)

(** Modelled from the spec: [tickingTimer], [makeTickingTimer], [isSet],
    [registerOneTimeTimer], [unregisterTimer] and the registry's tick are
    not in the instance file. The spec's contract (4.5): [arm(ticks, cb)],
    [cancel()], [is_armed()], and a registry-wide [tick()] that decrements
    every armed timer and invokes the callbacks whose count reaches zero;
    the timer is one-shot and may be re-armed after it fired or was
    cancelled. [remaining = None] is the unarmed timer. The callback is
    not stored here: [newInstance] fixes it to [transitionToAccept], which
    [onTick] below invokes. *)
Record tickingTimer : Type := mkTickingTimer {
  timeout : nat;
  remaining : option nat
}.

Definition makeTickingTimer (timeout : nat) : tickingTimer :=
  {| timeout := timeout; remaining := None |}.

Definition isSet (t : tickingTimer) : bool :=
  match remaining t with Some _ => true | None => false end.

Definition registerOneTimeTimer (t : tickingTimer) : tickingTimer :=
  {| timeout := timeout t; remaining := Some (timeout t) |}.

Definition unregisterTimer (t : tickingTimer) : tickingTimer :=
  {| timeout := timeout t; remaining := None |}.

(** One tick of the registry on this timer: the timer after the tick, and
    whether its callback is invoked. *)
Definition tickTimer (t : tickingTimer) : tickingTimer * bool :=
  match remaining t with
  | None => (t, false)
  | Some n =>
      let n' := Nat.pred n in
      if bool_decide (n' = 0%nat)
      then (unregisterTimer t, true)
      else ({| timeout := timeout t; remaining := Some n' |}, false)
  end.

Definition slowPathTimout : nat := 2.

(** ** Panics *)

(** The ways a handler can panic: [logger.Panicf] in [assertState], an
    assignment to an entry of a nil map, the dereference of a nil pointer. *)
Inductive panic : Type :=
  | UnexpectedState (cur : instanceState) (valid : list instanceState)
  | NilMapWrite
  | NilDereference.

Inductive outcome (A : Type) : Type :=
  | Done (a : A)
  | Panicked (e : panic).
Arguments Done {A} a.
Arguments Panicked {A} e.

(** ** The instance and its replica *)

Section Instance.
Context {Command Ballot : Type}.

(** [struct instance], without the back-pointer [p] to the replica: the
    replica is passed to the handlers that consult it. *)
Record instance : Type := mkInstance {
  r : pb.ReplicaID;
  i : pb.InstanceNum;
  cmd : Command;
  seq : pb.SeqNum;
  deps : depsMap;
  ballot : Ballot;
  state : instanceState;
  (* command-leader state *)
  preAcceptReplies : Z;
  differentReplies : bool;
  slowPathTimer : tickingTimer;
  acceptReplies : Z
}.

(** What an instance asks of its replica [p *epaxos], whose code is outside
    the instance file: the two quorum tests and the scan of the known
    instances for the conflicts of a command. Modelled from the spec:
    [seqAndDepsForCommand] returns the maximum sequence number of the
    conflicting instances and the set of their coordinates (a map that is
    not nil). *)
Record epaxos : Type := mkEpaxos {
  quorum : Z → bool;
  fastQuorum : Z → bool;
  seqAndDepsForCommand : Command → pb.SeqNum * gset pb.Dependency
}.

(** [newInstance]: every field but [r], [i] and the timer has Go's zero
    value; in particular [deps] is the nil map. *)
Definition newInstance (zeroCommand : Command) (zeroBallot : Ballot)
    (r : pb.ReplicaID) (i : pb.InstanceNum) : instance :=
  {| r := r; i := i; cmd := zeroCommand; seq := 0; deps := None;
     ballot := zeroBallot; state := none;
     preAcceptReplies := 0; differentReplies := false;
     slowPathTimer := makeTickingTimer slowPathTimout;
     acceptReplies := 0 |}.

(** Field assignments [inst.f = v]. *)
Definition set_cmd (v : Command) (inst : instance) : instance :=
  {| r := r inst; i := i inst; cmd := v; seq := seq inst; deps := deps inst;
     ballot := ballot inst; state := state inst;
     preAcceptReplies := preAcceptReplies inst;
     differentReplies := differentReplies inst;
     slowPathTimer := slowPathTimer inst; acceptReplies := acceptReplies inst |}.

Definition set_seq (v : pb.SeqNum) (inst : instance) : instance :=
  {| r := r inst; i := i inst; cmd := cmd inst; seq := v; deps := deps inst;
     ballot := ballot inst; state := state inst;
     preAcceptReplies := preAcceptReplies inst;
     differentReplies := differentReplies inst;
     slowPathTimer := slowPathTimer inst; acceptReplies := acceptReplies inst |}.

Definition set_deps (v : depsMap) (inst : instance) : instance :=
  {| r := r inst; i := i inst; cmd := cmd inst; seq := seq inst; deps := v;
     ballot := ballot inst; state := state inst;
     preAcceptReplies := preAcceptReplies inst;
     differentReplies := differentReplies inst;
     slowPathTimer := slowPathTimer inst; acceptReplies := acceptReplies inst |}.

Definition set_state (v : instanceState) (inst : instance) : instance :=
  {| r := r inst; i := i inst; cmd := cmd inst; seq := seq inst;
     deps := deps inst; ballot := ballot inst; state := v;
     preAcceptReplies := preAcceptReplies inst;
     differentReplies := differentReplies inst;
     slowPathTimer := slowPathTimer inst; acceptReplies := acceptReplies inst |}.

Definition set_preAcceptReplies (v : Z) (inst : instance) : instance :=
  {| r := r inst; i := i inst; cmd := cmd inst; seq := seq inst;
     deps := deps inst; ballot := ballot inst; state := state inst;
     preAcceptReplies := v;
     differentReplies := differentReplies inst;
     slowPathTimer := slowPathTimer inst; acceptReplies := acceptReplies inst |}.

Definition set_differentReplies (v : bool) (inst : instance) : instance :=
  {| r := r inst; i := i inst; cmd := cmd inst; seq := seq inst;
     deps := deps inst; ballot := ballot inst; state := state inst;
     preAcceptReplies := preAcceptReplies inst;
     differentReplies := v;
     slowPathTimer := slowPathTimer inst; acceptReplies := acceptReplies inst |}.

Definition set_slowPathTimer (v : tickingTimer) (inst : instance) : instance :=
  {| r := r inst; i := i inst; cmd := cmd inst; seq := seq inst;
     deps := deps inst; ballot := ballot inst; state := state inst;
     preAcceptReplies := preAcceptReplies inst;
     differentReplies := differentReplies inst;
     slowPathTimer := v; acceptReplies := acceptReplies inst |}.

Definition set_acceptReplies (v : Z) (inst : instance) : instance :=
  {| r := r inst; i := i inst; cmd := cmd inst; seq := seq inst;
     deps := deps inst; ballot := ballot inst; state := state inst;
     preAcceptReplies := preAcceptReplies inst;
     differentReplies := differentReplies inst;
     slowPathTimer := slowPathTimer inst; acceptReplies := v |}.

(** ** Effects and the handler monad *)

(** What a handler hands to its replica, in order. *)
Inductive effect : Type :=
  | Broadcast (m : pb.Message Command)
  | Reply (m : pb.Message Command)
  | Debugf (cur : instanceState) (ignored : pb.Message Command)
  | PrepareToExecute.

(** A method on [inst *instance]: from the instance to a result, the
    instance after the call and the effects emitted, unless it panics. *)
Definition M (A : Type) : Type :=
  instance → outcome (A * instance * list effect).

#[global] Instance M_ret : MRet M := λ A a inst, Done (a, inst, []).

#[global] Instance M_bind : MBind M := λ A B k m inst,
  match m inst with
  | Panicked e => Panicked e
  | Done (a, inst1, out1) =>
      match k a inst1 with
      | Panicked e => Panicked e
      | Done (b, inst2, out2) => Done (b, inst2, out1 ++ out2)
      end
  end.

Definition get : M instance := λ inst, Done (inst, inst, []).
Definition modify (f : instance → instance) : M unit :=
  λ inst, Done (tt, f inst, []).
Definition emit (e : effect) : M unit := λ inst, Done (tt, inst, [e]).
Definition throw {A} (e : panic) : M A := λ _, Panicked e.

(** [*ptr]. *)
Definition deref {A} (ptr : option A) : M A :=
  match ptr with
  | Some a => mret a
  | None => throw NilDereference
  end.

(** [for _, x := range xs { body }]. *)
Fixpoint forRange {A} (xs : list A) (body : A → M unit) : M unit :=
  match xs with
  | [] => mret tt
  | x :: xs' => body x ;; forRange xs' body
  end.

(** [inst.deps[dep] = struct{}{}]. *)
Definition depsInsert (dep : pb.Dependency) : M unit :=
  inst ← get;
  match deps inst with
  | None => throw NilMapWrite
  | Some D => modify (set_deps (Some ({[dep]} ∪ D)))
  end.

(** The instance and the effects a handler leaves behind. *)
Definition exec (m : M unit) (inst : instance) : outcome (instance * list effect) :=
  match m inst with
  | Panicked e => Panicked e
  | Done (_, inst', out) => Done (inst', out)
  end.

(** ** executable functions *)

(** [ExecutesBefore]: sequence numbers first, then replica ids. *)
Definition ExecutesBefore (inst instB : instance) : bool :=
  let seqA := seq inst in
  let seqB := seq instB in
  if negb (bool_decide (seqA = seqB)) then bool_decide (seqA < seqB)
  else bool_decide (r inst < r instB).

(** [Less], the order of the commands btree. *)
Definition Less (inst than : instance) : bool := bool_decide (i inst < i than).

(** ** Utility functions *)

Definition depSlice (inst : instance) : list pb.Dependency :=
  depSliceFromMap (deps inst).

Definition instanceStateWithoutCommand (inst : instance) : pb.InstanceState Command :=
  {| pb.Command_ := None; pb.SeqNum_ := seq inst; pb.Deps := depSlice inst |}.

(** The method [instanceState()] (renamed: the type has the name). *)
Definition instanceStateWithCommand (inst : instance) : pb.InstanceState Command :=
  let ist := instanceStateWithoutCommand inst in
  {| pb.Command_ := Some (cmd inst); pb.SeqNum_ := pb.SeqNum_ ist;
     pb.Deps := pb.Deps ist |}.

(** [updateInstanceState]: returns whether the instance was changed. *)
Definition updateInstanceState (newSeq : pb.SeqNum)
    (newDeps : list pb.Dependency) : M bool :=
  inst ← get;
  let sameSeq := bool_decide (seq inst = newSeq) in
  (if negb sameSeq then modify (set_seq newSeq) else mret tt) ;;
  inst ← get;
  let sameDeps := bool_decide (lenSlice newDeps = lenMap (deps inst)) in
  (if negb sameDeps then forRange newDeps depsInsert else mret tt) ;;
  let changed := negb (sameSeq && sameDeps) in
  mret changed.

Definition prepareToExecute : M unit := emit PrepareToExecute.

(** ** State transitions *)

Definition isStates (states : list instanceState) : M bool :=
  inst ← get;
  let cur := state inst in
  mret (existsb (λ s, bool_decide (s = cur)) states).

Definition assertState (valid : list instanceState) : M unit :=
  ok ← isStates valid;
  if negb ok
  then inst ← get; throw (UnexpectedState (state inst) valid)
  else mret tt.

Definition broadcastPreAccept : M unit :=
  inst ← get; emit (Broadcast (pb.MsgPreAccept (instanceStateWithCommand inst))).

Definition broadcastAccept : M unit :=
  inst ← get; emit (Broadcast (pb.MsgAccept (instanceStateWithoutCommand inst))).

Definition broadcastCommit : M unit :=
  inst ← get; emit (Broadcast (pb.MsgCommit (instanceStateWithCommand inst))).

Definition transitionToPreAccept : M unit :=
  assertState [none] ;;
  modify (set_state preAccepted) ;;
  broadcastPreAccept.

Definition transitionToAccept : M unit :=
  assertState [preAccepted] ;;
  modify (set_state accepted) ;;
  broadcastAccept.

Definition transitionToCommit : M unit :=
  assertState [preAccepted; accepted] ;;
  modify (set_state committed) ;;
  broadcastCommit ;;
  prepareToExecute.

(** ** Message handlers *)

(** [logger.Debugf("ignoring ... message while in state %v: %v", ...)]. *)
Definition ignoring (m : pb.Message Command) : M unit :=
  inst ← get; emit (Debugf (state inst) m).

Definition reply (m : pb.Message Command) : M unit := emit (Reply m).

(** The width of [pb.SeqNum], whose declaration is outside the instance
    file. *)
Variable seqNumBits : N.

Definition onPreAccept (p : epaxos) (pa : pb.InstanceState Command) : M unit :=
  (* Only handle if this is a new instance, and set the state to preAccepted. *)
  ok ← isStates [none];
  if negb ok then ignoring (pb.MsgPreAccept pa) else
  modify (set_state preAccepted) ;;
  (* Determine the local sequence number and deps for this command. *)
  c ← deref (pb.Command_ pa);
  let '(maxLocalSeq, localDeps) := seqAndDepsForCommand p c in
  (* Record the command for the instance. *)
  modify (set_cmd c) ;;
  modify (set_seq (pb.MaxSeqNum (pb.SeqNum_ pa) (wrapSeq seqNumBits (maxLocalSeq + 1)))) ;;
  (* The union of the local dependencies and the PreAccept's dependencies. *)
  let depsUnion := foldl (λ D dep, {[dep]} ∪ D) localDeps (pb.Deps pa) in
  modify (set_deps (Some depsUnion)) ;;
  inst ← get;
  if bool_decide (seq inst = pb.SeqNum_ pa)
     && bool_decide (lenMap (deps inst) = lenSlice (pb.Deps pa))
  then reply pb.MsgPreAcceptOK
  else reply (pb.MsgPreAcceptReply
                {| pb.UpdatedSeqNum := seq inst;
                   pb.UpdatedDeps := depSliceFromMap (Some depsUnion) |}).

(** [fastPathAvailable]: whether the fast path is still available. *)
Definition fastPathAvailable : M bool :=
  inst ← get; mret (negb (differentReplies inst)).

Definition cancelSlowPathTimer : M unit :=
  modify (λ inst, set_slowPathTimer (unregisterTimer (slowPathTimer inst)) inst).

Definition armSlowPathTimer : M unit :=
  modify (λ inst, set_slowPathTimer (registerOneTimeTimer (slowPathTimer inst)) inst).

Definition onEitherPreAcceptReply (p : epaxos) : M unit :=
  inst ← get;
  let replies := wrapInt (preAcceptReplies inst + 1) in (* +1 for leader *)
  let takeFastPath := negb (differentReplies inst) && fastQuorum p replies in
  let takeSlowPath := quorum p replies in
  if takeFastPath then
    cancelSlowPathTimer ;;
    transitionToCommit
  else if takeSlowPath then
    available ← fastPathAvailable;
    if negb available then
      (* Since the fast path will never be available, take the slow path. *)
      cancelSlowPathTimer ;;
      transitionToAccept
    else
      inst ← get;
      if negb (isSet (slowPathTimer inst)) then
        (* Delay for a few ticks before taking the slow path. *)
        armSlowPathTimer
      else
        (* Timer already set. *)
        mret tt
  else mret tt.

Definition onPreAcceptOK (p : epaxos) : M unit :=
  ok ← isStates [preAccepted];
  if negb ok then ignoring pb.MsgPreAcceptOK else
  modify (λ inst, set_preAcceptReplies (wrapInt (preAcceptReplies inst + 1)) inst) ;;
  onEitherPreAcceptReply p.

Definition onPreAcceptReply (p : epaxos) (paReply : pb.PreAcceptReply) : M unit :=
  ok ← isStates [preAccepted];
  if negb ok then ignoring (pb.MsgPreAcceptReply paReply) else
  (* Update the instance state based on the PreAcceptReply. *)
  changed ← updateInstanceState (pb.UpdatedSeqNum paReply) (pb.UpdatedDeps paReply);
  (* Whether we have ever seen new information in PreAcceptReply messages. *)
  modify (λ inst, set_differentReplies (differentReplies inst || changed) inst) ;;
  modify (λ inst, set_preAcceptReplies (wrapInt (preAcceptReplies inst + 1)) inst) ;;
  onEitherPreAcceptReply p.

Definition onAccept (a : pb.InstanceState Command) : M unit :=
  ok ← isStates [none; preAccepted];
  if negb ok then ignoring (pb.MsgAccept a) else
  modify (set_state accepted) ;;
  updateInstanceState (pb.SeqNum_ a) (pb.Deps a) ;;
  reply pb.MsgAcceptOK.

Definition onAcceptOK (p : epaxos) : M unit :=
  ok ← isStates [accepted];
  if negb ok then ignoring pb.MsgAcceptOK else
  modify (λ inst, set_acceptReplies (wrapInt (acceptReplies inst + 1)) inst) ;;
  inst ← get;
  if quorum p (wrapInt (acceptReplies inst + 1)) (* +1 for leader *)
  then transitionToCommit
  else mret tt.

Definition onCommit (c : pb.InstanceState Command) : M unit :=
  ok ← isStates [none; preAccepted; accepted];
  if negb ok then ignoring (pb.MsgCommit c) else
  modify (set_state committed) ;;
  command ← deref (pb.Command_ c);
  modify (set_cmd command) ;;
  updateInstanceState (pb.SeqNum_ c) (pb.Deps c) ;;
  prepareToExecute.

(** The part of [onPreAcceptOK] and of [onPreAcceptReply] between the state
    check and the call of [onEitherPreAcceptReply]: the reply is tallied. *)
Definition tally (m : pb.Message Command) : M unit :=
  match m with
  | pb.MsgPreAcceptOK =>
      modify (λ inst, set_preAcceptReplies (wrapInt (preAcceptReplies inst + 1)) inst)
  | pb.MsgPreAcceptReply paReply =>
      changed ← updateInstanceState (pb.UpdatedSeqNum paReply) (pb.UpdatedDeps paReply);
      modify (λ inst, set_differentReplies (differentReplies inst || changed) inst) ;;
      modify (λ inst, set_preAcceptReplies (wrapInt (preAcceptReplies inst + 1)) inst)
  | _ => mret tt
  end.

Definition isPreAcceptAnswer (m : pb.Message Command) : bool :=
  match m with
  | pb.MsgPreAcceptOK | pb.MsgPreAcceptReply _ => true
  | _ => false
  end.

(** The number of replies that [onEitherPreAcceptReply] counts, and the
    instance after [unregisterTimer], after [registerOneTimeTimer] and
    with its timer counted down to [n]. *)
Definition replies (inst : instance) : Z := wrapInt (preAcceptReplies inst + 1).

Definition cancelled (inst : instance) : instance :=
  set_slowPathTimer (unregisterTimer (slowPathTimer inst)) inst.

Definition armed (inst : instance) : instance :=
  set_slowPathTimer (registerOneTimeTimer (slowPathTimer inst)) inst.

Definition countedDown (n : nat) (inst : instance) : instance :=
  set_slowPathTimer {| timeout := timeout (slowPathTimer inst);
                       remaining := Some n |} inst.

(** ** Events *)

(** The slow-path timer's share of one tick of the replica: the timer
    counts down and, when it fires, runs the callback that [newInstance]
    gave it. *)
Definition onTick : M unit :=
  inst ← get;
  let '(t, fired) := tickTimer (slowPathTimer inst) in
  modify (set_slowPathTimer t) ;;
  if fired then transitionToAccept else mret tt.

(** Modelled from the spec: the replica's dispatch is outside the instance
    file; an inbound message is dispatched by kind to the corresponding
    handler of the instance it names. *)
Definition onMessage (p : epaxos) (m : pb.Message Command) : M unit :=
  match m with
  | pb.MsgPreAccept pa => onPreAccept p pa
  | pb.MsgPreAcceptOK => onPreAcceptOK p
  | pb.MsgPreAcceptReply paReply => onPreAcceptReply p paReply
  | pb.MsgAccept a => onAccept a
  | pb.MsgAcceptOK => onAcceptOK p
  | pb.MsgCommit c => onCommit c
  end.

Inductive event : Type :=
  | Deliver (m : pb.Message Command)
  | Tick.

(** An event reaches the instance together with the replica as it is at
    that moment (the other instances change between events). *)
Definition step (pe : epaxos * event) : M unit :=
  match pe.2 with
  | Deliver m => onMessage pe.1 m
  | Tick => onTick
  end.

Definition run (evs : list (epaxos * event)) : M unit := forRange evs step.

(** A sequence of message deliveries, as events. *)
Definition deliveries (msgs : list (epaxos * pb.Message Command))
    : list (epaxos * event) :=
  map (λ pm, (pm.1, Deliver pm.2)) msgs.

(** The transitions taken along a sequence of events, each with the event
    that caused it: (state before, event, state after). A panic ends the
    sequence. *)
Fixpoint transitions (inst : instance) (evs : list (epaxos * event))
    : list (instanceState * event * instanceState) :=
  match evs with
  | [] => []
  | pe :: evs' =>
      match exec (step pe) inst with
      | Panicked _ => []
      | Done (inst', _) => (state inst, pe.2, state inst') :: transitions inst' evs'
      end
  end.

(** The instance after a sequence of events, where no event panicked. *)
Fixpoint after (inst : instance) (evs : list (epaxos * event)) : option instance :=
  match evs with
  | [] => Some inst
  | pe :: evs' =>
      match exec (step pe) inst with
      | Panicked _ => None
      | Done (inst', _) => after inst' evs'
      end
  end.

(** The transitions the state machine allows, by the event that takes
    them. *)
Definition legal (ev : event) (s s' : instanceState) : Prop :=
  match s, s' with
  | none, preAccepted => True
  | preAccepted, accepted => True
  | none, accepted => ∃ a, ev = Deliver (pb.MsgAccept a)
  | preAccepted, committed | accepted, committed => True
  | none, committed => ∃ c, ev = Deliver (pb.MsgCommit c)
  | committed, executed => True
  | _, _ => s = s'
  end.

(** The slow-path timer is armed only while the instance is [preAccepted]:
    what the assertion in the timer's callback relies on. *)
Definition timerInv (inst : instance) : Prop :=
  isSet (slowPathTimer inst) = true → state inst = preAccepted.

Definition isAcceptOrCommit (ev : event) : bool :=
  match ev with
  | Deliver (pb.MsgAccept _) | Deliver (pb.MsgCommit _) => true
  | _ => false
  end.

(** ** The rest of the instance file *)

(** [instanceKey]: a key to index into the commands btree, [&instance{i: i}];
    every other field has its zero value. *)
Definition instanceKey (zeroCommand : Command) (zeroBallot : Ballot)
    (i : pb.InstanceNum) : instance :=
  {| r := 0; i := i; cmd := zeroCommand; seq := 0; deps := None;
     ballot := zeroBallot; state := none;
     preAcceptReplies := 0; differentReplies := false;
     slowPathTimer := {| timeout := 0; remaining := None |};
     acceptReplies := 0 |}.

(** [Identifier]: the coordinates of the instance as a dependency. *)
Definition Identifier (inst : instance) : pb.Dependency :=
  {| pb.DepReplicaID := r inst; pb.DepInstanceNum := i inst |}.

(** [for dep := range m]: the keys of a map in one order of iteration. Go
    leaves the order unspecified; what is proved of a function that ranges
    over a map is proved for every order, or up to permutation. *)
Definition mapRange (m : depsMap) : list pb.Dependency := elements (members m).

(** [Dependencies]: the keys of [inst.deps], appended in the order of
    iteration. *)
Definition Dependencies (inst : instance) : list pb.Dependency :=
  foldl (λ deps dep, deps ++ [dep]) [] (mapRange (deps inst)).

(** [depSliceFromMap] with the order of iteration made explicit: the keys
    are appended as they come and then sorted. *)
Definition depSliceFromRange (keys : list pb.Dependency) : list pb.Dependency :=
  merge_sort pb.DependencyLe (foldl (λ deps dep, deps ++ [dep]) [] keys).

(** ** Shapes of a step *)

(** A dependency list as it goes on the wire: sorted, no entry twice. *)
Definition canonicalDeps (ds : list pb.Dependency) : Prop :=
  Sorted pb.DependencyLe ds ∧ NoDup ds.

Definition canonicalMessage (m : pb.Message Command) : Prop :=
  match m with
  | pb.MsgPreAccept st | pb.MsgAccept st | pb.MsgCommit st =>
      canonicalDeps (pb.Deps st)
  | pb.MsgPreAcceptReply paReply => canonicalDeps (pb.UpdatedDeps paReply)
  | pb.MsgPreAcceptOK | pb.MsgAcceptOK => True
  end.


Definition isPrepareToExecute (e : effect) : bool :=
  match e with PrepareToExecute => true | _ => false end.

Definition isBroadcastCommit (e : effect) : bool :=
  match e with Broadcast (pb.MsgCommit _) => true | _ => false end.

(** How often a list of effects hands the instance to the executor, and
    how often it broadcasts Commit. *)
Definition handOffs (out : list effect) : nat :=
  length (filter (λ e, isPrepareToExecute e = true) out).

Definition commitBroadcasts (out : list effect) : nat :=
  length (filter (λ e, isBroadcastCommit e = true) out).

(** A message that carries what its handler dereferences: PreAccept and
    Commit carry their command. *)
Definition carriesCommand (m : pb.Message Command) : Prop :=
  match m with
  | pb.MsgPreAccept st | pb.MsgCommit st => is_Some (pb.Command_ st)
  | _ => True
  end.

(** [u] is [inst] after a call of [updateInstanceState] that returned: the
    sequence number and the dependency map are set, no dependency is lost
    and an initialised map stays initialised. *)
Definition updated (inst u : instance) : Prop :=
  ∃ s D', u = set_deps D' (set_seq s inst)
          ∧ members (deps inst) ⊆ members D'
          ∧ (is_Some (deps inst) → is_Some D').

(** [t] is [u] with the leader's reply counters set. *)
Definition counted (u t : instance) : Prop :=
  ∃ n b, t = set_preAcceptReplies n (set_differentReplies b u).

(** The shapes a step that returns can have: the instance after it and the
    effects it emits. *)
Inductive moves (inst : instance) : instance → list effect → Prop :=
  | moves_ignored m :
      moves inst inst [Debugf (state inst) m]
  | moves_preAccept c s D rep :
      state inst = none → canonicalMessage rep →
      moves inst (set_deps (Some D) (set_seq s (set_cmd c (set_state preAccepted inst))))
            [Reply rep]
  | moves_fast u t :
      state inst = preAccepted → updated inst u → counted u t →
      moves inst (set_state committed (cancelled t))
            [Broadcast (pb.MsgCommit (instanceStateWithCommand t)); PrepareToExecute]
  | moves_slow u t :
      state inst = preAccepted → updated inst u → counted u t →
      moves inst (set_state accepted (cancelled t))
            [Broadcast (pb.MsgAccept (instanceStateWithoutCommand t))]
  | moves_wait u t tm :
      state inst = preAccepted → updated inst u → counted u t →
      moves inst (set_slowPathTimer tm t) []
  | moves_accept u :
      state inst = none ∨ state inst = preAccepted →
      updated (set_state accepted inst) u →
      moves inst u [Reply pb.MsgAcceptOK]
  | moves_acceptOK n :
      state inst = accepted →
      moves inst (set_acceptReplies n inst) []
  | moves_acceptOK_commit n :
      state inst = accepted →
      moves inst (set_state committed (set_acceptReplies n inst))
            [Broadcast (pb.MsgCommit (instanceStateWithCommand (set_acceptReplies n inst)));
             PrepareToExecute]
  | moves_commit c u :
      state inst = none ∨ state inst = preAccepted ∨ state inst = accepted →
      updated (set_cmd c (set_state committed inst)) u →
      moves inst u [PrepareToExecute]
  | moves_tick tm :
      moves inst (set_slowPathTimer tm inst) []
  | moves_fire :
      state inst = preAccepted →
      moves inst (set_state accepted (cancelled inst))
            [Broadcast (pb.MsgAccept (instanceStateWithoutCommand inst))].

(** ** Routing *)

(** Modelled from the spec: the replica's message dispatch is not in the
    instance file. The spec (4.1) has replies directed to the command
    leader's replica, at the instance they answer, and the command leader
    broadcasts PreAccept, Accept and Commit to all other nodes. So the
    instance on its command leader receives the replies (PreAcceptOK,
    PreAcceptReply, AcceptOK), an instance on another replica receives
    PreAccept, Accept and Commit, and both are ticked. *)
Definition isReply (m : pb.Message Command) : bool :=
  match m with
  | pb.MsgPreAcceptOK | pb.MsgPreAcceptReply _ | pb.MsgAcceptOK => true
  | _ => false
  end.

Definition atLeader (ev : event) : bool :=
  match ev with
  | Deliver m => isReply m
  | Tick => true
  end.

Definition atReplica (ev : event) : bool :=
  match ev with
  | Deliver m => negb (isReply m)
  | Tick => true
  end.

(** The events an instance can receive: those of the command leader's
    instance, whose timer may be armed, or those of an instance on another
    replica, whose timer is as [newInstance] left it. *)
Definition receivable (inst : instance) (evs : list (epaxos * event)) : Prop :=
  Forall (λ pe, atLeader pe.2 = true) evs
  ∨ (isSet (slowPathTimer inst) = false
     ∧ Forall (λ pe, atReplica pe.2 = true) evs).

(** ** The executor's order inside a strongly connected component *)




(** [a] does not come after [b]: [b] does not execute before [a]. *)
Definition notAfter (a b : instance) : Prop := ExecutesBefore b a = false.

#[local] Instance notAfter_dec a b : Decision (notAfter a b).
Proof. unfold notAfter. apply _. Defined.

Definition executionOrder (scc : list instance) : list instance :=
  merge_sort notAfter scc.


(** [k] AcceptOK messages in a row. *)
Definition acceptOKs (p : epaxos) (k : nat) : list (epaxos * event) :=
  replicate k (p, Deliver pb.MsgAcceptOK).

End Instance.

Arguments instance : clear implicits.
Arguments epaxos : clear implicits.
Arguments effect : clear implicits.
Arguments event : clear implicits.
Arguments M : clear implicits.

(** ** Concrete replicas, instances and messages used in the examples *)

Module Examples.

Definition dep (rid num : Z) : pb.Dependency := pb.mkDependency rid num.

(** A replica of a group of three whose fast quorum is the whole group
    (slow quorum 2, fast quorum 3) and that knows one conflicting instance,
    (0, 1), with sequence number 4. Commands are numbers. *)
Definition replica3 : epaxos nat :=
  {| quorum := λ n, bool_decide (2 ≤ n);
     fastQuorum := λ n, bool_decide (3 ≤ n);
     seqAndDepsForCommand := λ _, (4, {[dep 0 1]}) |}.

(** A replica without conflicting instances. *)
Definition quiet3 : epaxos nat :=
  {| quorum := λ n, bool_decide (2 ≤ n);
     fastQuorum := λ n, bool_decide (3 ≤ n);
     seqAndDepsForCommand := λ _, (0, ∅) |}.

(** Modelled from the spec: the quorum tests of a group that tolerates [f]
    failures are not in the instance file; the spec (4.1) gives the slow
    quorum as n ≥ f + 1 and the fast quorum as n ≥ f + ⌊(f+1)/2⌋. For
    f = 1 both are 2. *)
Definition formulaQuorums (f : Z) : epaxos nat :=
  {| quorum := λ n, bool_decide (f + 1 ≤ n);
     fastQuorum := λ n, bool_decide (f + (f + 1) `div` 2 ≤ n);
     seqAndDepsForCommand := λ _, (0, ∅) |}.

(** An instance as [newInstance] creates it for a message that names
    coordinates not yet known. *)
Definition fresh : instance nat unit := newInstance 0%nat tt 1 1.

(** The command leader's instance after a proposal: PreAccepted, with the
    sequence number and dependencies of its command. *)
Definition leader : instance nat unit :=
  set_state preAccepted (set_seq 1 (set_deps (Some ∅) (set_cmd 7%nat fresh))).

(** The command leader's instance before it is proposed: the sequence
    number and the dependencies of its command are set, the state is still
    [none]. *)
Definition proposal : instance nat unit :=
  set_seq 3 (set_deps (Some {[dep 2 2]}) (set_cmd 7%nat fresh)).

Definition committedInst : instance nat unit :=
  set_state committed (set_seq 5 (set_deps (Some {[dep 0 1]}) (set_cmd 7%nat fresh))).

Definition preAccept57 : pb.InstanceState nat :=
  {| pb.Command_ := Some 7%nat; pb.SeqNum_ := 5; pb.Deps := [dep 0 1; dep 2 2] |}.

(** A PreAccept whose dependency list names (2, 2) twice. *)
Definition preAcceptDup : pb.InstanceState nat :=
  {| pb.Command_ := Some 7%nat; pb.SeqNum_ := 5; pb.Deps := [dep 2 2; dep 2 2] |}.

Definition accept21 : pb.InstanceState nat :=
  {| pb.Command_ := None; pb.SeqNum_ := 2; pb.Deps := [dep 0 1] |}.

Definition commit21 : pb.InstanceState nat :=
  {| pb.Command_ := Some 7%nat; pb.SeqNum_ := 2; pb.Deps := [dep 0 1] |}.

(** The leader's instance with one reply already tallied. *)
Definition leaderOneReply : instance nat unit := set_preAcceptReplies 1 leader.

(** A PreAcceptReply that carries a new sequence number and a new
    dependency. *)
Definition replyNew : pb.PreAcceptReply :=
  {| pb.UpdatedSeqNum := 2; pb.UpdatedDeps := [dep 0 1] |}.

(** Three commands whose instances end in one strongly connected
    component: a and b, proposed by replica 0 and not in conflict with each
    other, and c, proposed by replica 1 and in conflict with both. Each
    command leader has proposed with sequence number 1 and no dependency,
    learns of the other side from a PreAcceptReply, takes the slow path and
    commits on the AcceptOK. *)
Definition proposed (rid num : Z) (c : nat) : instance nat unit :=
  set_state preAccepted
    (set_seq 1 (set_deps (Some ∅) (set_cmd c (newInstance 0%nat tt rid num)))).

Definition slowRoundWith (ds : list pb.Dependency) : list (epaxos nat * event nat) :=
  [(quiet3, Deliver (pb.MsgPreAcceptReply
                       {| pb.UpdatedSeqNum := 2; pb.UpdatedDeps := ds |}));
   (quiet3, Deliver pb.MsgAcceptOK)].

Definition committedBy (inst : instance nat unit)
    (evs : list (epaxos nat * event nat)) : instance nat unit :=
  match exec (run 64 evs) inst with
  | Done (inst', _) => inst'
  | Panicked _ => inst
  end.

Definition tieA : instance nat unit :=
  committedBy (proposed 0 1 7%nat) (slowRoundWith [dep 1 1]).

Definition tieB : instance nat unit :=
  committedBy (proposed 0 2 8%nat) (slowRoundWith [dep 1 1]).

Definition tieC : instance nat unit :=
  committedBy (proposed 1 1 9%nat) (slowRoundWith [dep 0 1; dep 0 2]).

(** The scenario S4 of the spec: C_a of replica 0 and C_b of replica 1,
    both with sequence number 5, each a dependency of the other. *)
Definition s4a : instance nat unit :=
  set_state committed
    (set_seq 5 (set_deps (Some {[dep 1 1]}) (set_cmd 1%nat (newInstance 0%nat tt 0 1)))).

Definition s4b : instance nat unit :=
  set_state committed
    (set_seq 5 (set_deps (Some {[dep 0 1]}) (set_cmd 2%nat (newInstance 0%nat tt 1 1)))).

(** A PreAcceptOK arms the leader's timer, a Commit for the same instance
    arrives, and two ticks pass. *)
Definition commitWhileArmed : list (epaxos nat * event nat) :=
  [(quiet3, Deliver pb.MsgPreAcceptOK);
   (quiet3, Deliver (pb.MsgCommit commit21));
   (quiet3, Tick);
   (quiet3, Tick)].

(** A slow-path round on the leader: a reply with new information, the
    Accept quorum, and a late PreAccept. *)
Definition slowRound : list (epaxos nat * event nat) :=
  [(quiet3, Deliver (pb.MsgPreAcceptReply replyNew));
   (quiet3, Deliver pb.MsgAcceptOK);
   (quiet3, Tick);
   (quiet3, Deliver (pb.MsgPreAccept preAccept57))].

End Examples.

(** * Properties *)

(** Unfolds the monad's operations so that a handler computes. *)
Ltac unfold_M :=
  unfold exec, ignoring, reply, prepareToExecute, cancelSlowPathTimer,
    armSlowPathTimer, fastPathAvailable, deref,
    mbind, M_bind, mret, M_ret, get, modify, emit, throw in *.

(** ** Laws of the handler monad *)

Section MonadLaws.
Context {Command Ballot : Type}.
Implicit Types (inst : instance Command Ballot).

Lemma bind_get {B} (k : instance Command Ballot → M Command Ballot B) inst :
  (get ≫= k) inst = k inst inst.
Proof. unfold_M. by destruct (k inst inst) as [[[b inst2] out2] | e]. Qed.

Lemma bind_modify {B} f (k : unit → M Command Ballot B) inst :
  (modify f ≫= k) inst = k tt (f inst).
Proof. unfold_M. by destruct (k tt (f inst)) as [[[b inst2] out2] | e]. Qed.

Lemma bind_ret {A B} (a : A) (k : A → M Command Ballot B) inst :
  (mret a ≫= k) inst = k a inst.
Proof. unfold_M. by destruct (k a inst) as [[[b inst2] out2] | e]. Qed.

Lemma bind_emit {B} ef (k : unit → M Command Ballot B) inst :
  (emit ef ≫= k) inst
  = match k tt inst with
    | Done (b, inst2, out2) => Done (b, inst2, ef :: out2)
    | Panicked e => Panicked e
    end.
Proof. reflexivity. Qed.

Lemma bind_throw {A B} e (k : A → M Command Ballot B) inst :
  (throw e ≫= k) inst = Panicked e.
Proof. reflexivity. Qed.

Lemma bind_Done {A B} (m : M Command Ballot A) (k : A → M Command Ballot B) inst a inst1 out1 :
  m inst = Done (a, inst1, out1) →
  (m ≫= k) inst
  = match k a inst1 with
    | Done (b, inst2, out2) => Done (b, inst2, out1 ++ out2)
    | Panicked e => Panicked e
    end.
Proof. intros Hm. unfold_M. by rewrite Hm. Qed.

Lemma bind_Panicked {A B} (m : M Command Ballot A) (k : A → M Command Ballot B) inst e :
  m inst = Panicked e → (m ≫= k) inst = Panicked e.
Proof. intros Hm. unfold_M. by rewrite Hm. Qed.

Lemma ret_run {A} (a : A) inst : (mret a : M Command Ballot A) inst = Done (a, inst, []).
Proof. reflexivity. Qed.

Lemma isStates_run (states : list instanceState) inst :
  isStates states inst
  = Done (existsb (λ s, bool_decide (s = state inst)) states, inst, []).
Proof. reflexivity. Qed.

Lemma bind_Done_nil {A B} (m : M Command Ballot A) (k : A → M Command Ballot B)
    inst a inst1 :
  m inst = Done (a, inst1, []) → (m ≫= k) inst = k a inst1.
Proof.
  intros Hm. rewrite (bind_Done _ _ _ _ _ _ Hm).
  by destruct (k a inst1) as [[[b inst2] out2] | e].
Qed.

Lemma bind_isStates {B} (states : list instanceState)
    (k : bool → M Command Ballot B) inst :
  (isStates states ≫= k) inst
  = k (existsb (λ s, bool_decide (s = state inst)) states) inst.
Proof. apply bind_Done_nil, isStates_run. Qed.

End MonadLaws.

(** ** ExecutesBefore *)

Section ExecutionOrder.
Context {Command Ballot : Type}.

Lemma ExecutesBefore_true (a b : instance Command Ballot) :
  ExecutesBefore a b = true ↔ seq a < seq b ∨ (seq a = seq b ∧ r a < r b).
Proof.
  unfold ExecutesBefore. cbv zeta.
  destruct (bool_decide_reflect (seq a = seq b)) as [Heq | Hne];
    cbn [negb]; rewrite bool_decide_eq_true; lia.
Qed.

Lemma ExecutesBefore_false (a b : instance Command Ballot) :
  ExecutesBefore a b = false ↔ seq b < seq a ∨ (seq a = seq b ∧ r b ≤ r a).
Proof. rewrite <- not_true_iff_false, ExecutesBefore_true. lia. Qed.

(** [ExecutesBefore] is a strict order: nothing executes before itself, and
    of two instances that differ in (seq, replica id) exactly one executes
    before the other. *)
Lemma ExecutesBefore_irrefl (a : instance Command Ballot) :
  ExecutesBefore a a = false.
Proof. rewrite ExecutesBefore_false. lia. Qed.

Lemma ExecutesBefore_trans (a b c : instance Command Ballot) :
  ExecutesBefore a b = true → ExecutesBefore b c = true →
  ExecutesBefore a c = true.
Proof. rewrite !ExecutesBefore_true. lia. Qed.

Lemma ExecutesBefore_total (a b : instance Command Ballot) :
  (seq a, r a) ≠ (seq b, r b) →
  ExecutesBefore a b = negb (ExecutesBefore b a).
Proof.
  intros Hne.
  destruct (ExecutesBefore b a) eqn:Hba; simpl.
  - rewrite ExecutesBefore_false. apply ExecutesBefore_true in Hba. lia.
  - rewrite ExecutesBefore_true. apply ExecutesBefore_false in Hba.
    destruct (decide (seq a = seq b)) as [Hs | Hs];
      destruct (decide (r a = r b)) as [Hr | Hr]; try lia.
    exfalso. apply Hne. by rewrite Hs, Hr.
Qed.

(** The comparison of the sort is a total preorder. *)
Lemma notAfter_le (a b : instance Command Ballot) :
  notAfter a b ↔ seq a < seq b ∨ (seq a = seq b ∧ r a ≤ r b).
Proof. unfold notAfter. rewrite ExecutesBefore_false. lia. Qed.

#[local] Instance notAfter_trans :
  Transitive (notAfter (Command := Command) (Ballot := Ballot)).
Proof. intros a b c. rewrite !notAfter_le. lia. Qed.

#[local] Instance notAfter_total :
  Total (notAfter (Command := Command) (Ballot := Ballot)).
Proof. intros a b. rewrite !notAfter_le. lia. Qed.





End ExecutionOrder.


Example s4_execution_order :
  executionOrder [Examples.s4b; Examples.s4a] = [Examples.s4a; Examples.s4b].
Proof. reflexivity. Qed.

(** The three instances as the slow rounds leave them: all with sequence
    number 2; a and b of replica 0 depend on c, and c depends on both. *)
Example tie_instances :
  (Identifier Examples.tieA, seq Examples.tieA, depSlice Examples.tieA)
  = (Examples.dep 0 1, 2, [Examples.dep 1 1])
  ∧ (Identifier Examples.tieB, seq Examples.tieB, depSlice Examples.tieB)
    = (Examples.dep 0 2, 2, [Examples.dep 1 1])
  ∧ (Identifier Examples.tieC, seq Examples.tieC, depSlice Examples.tieC)
    = (Examples.dep 1 1, 2, [Examples.dep 0 1; Examples.dep 0 2])
  ∧ ExecutesBefore Examples.tieA Examples.tieB = false
  ∧ ExecutesBefore Examples.tieB Examples.tieA = false.
Proof. by vm_compute. Qed.


(** ** Out-of-phase messages *)

Section OutOfPhase.
Context {Command Ballot : Type}.
Implicit Types (inst : instance Command Ballot) (p : epaxos Command).
Implicit Types (m : pb.Message Command).

(** A message delivered to an instance that is Committed or Executed is
    dropped with a debug trace; the instance is untouched. *)
Lemma onMessage_after_commit (bits : N) p m inst :
  state_le committed (state inst) →
  exec (onMessage bits p m) inst = Done (inst, [Debugf (state inst) m]).
Proof.
  unfold state_le. intros Hle.
  destruct inst as [? ? ? ? ? ? st ? ? ? ?]; simpl in Hle.
  destruct st; simpl in Hle; try lia; destruct m; reflexivity.
Qed.

(** C4: once an instance has reached Committed, any sequence of delivered
    messages (PreAccept, PreAcceptOK, PreAcceptReply, Accept, AcceptOK,
    Commit) runs to completion and leaves its seq, deps and command (and
    its state) as they were. *)
Theorem frozen_after_commit (bits : N) inst
    (msgs : list (epaxos Command * pb.Message Command)) :
  state_le committed (state inst) →
  ∃ inst' out,
    exec (run bits (deliveries msgs)) inst = Done (inst', out)
    ∧ seq inst' = seq inst ∧ deps inst' = deps inst ∧ cmd inst' = cmd inst
    ∧ state inst' = state inst.
Proof.
  intros Hle.
  assert (∃ out, exec (run bits (deliveries msgs)) inst = Done (inst, out))
    as [out Hrun]; [| by exists inst, out].
  induction msgs as [| [p m] msgs [out IH]]; [by exists [] |].
  exists (Debugf (state inst) m :: out).
  pose proof (onMessage_after_commit bits p m inst Hle) as Hm.
  unfold run in *. simpl. unfold_M. unfold step at 1. simpl.
  destruct (onMessage bits p m inst) as [[[[] inst1] out1] | e]; [| done].
  injection Hm as -> ->.
  destruct (forRange _ _ inst) as [[[[] inst2] out2] | e]; [| done].
  by injection IH as -> ->.
Qed.

End OutOfPhase.

(** A Committed instance, a duplicate Commit and an Accept. *)
Lemma frozen_after_commit_witness :
  ∃ inst' out,
    exec (run 64 (deliveries [(Examples.replica3, pb.MsgCommit Examples.commit21);
                              (Examples.replica3, pb.MsgAccept Examples.accept21)]))
         Examples.committedInst = Done (inst', out)
    ∧ seq inst' = seq Examples.committedInst
    ∧ deps inst' = deps Examples.committedInst
    ∧ cmd inst' = cmd Examples.committedInst
    ∧ state inst' = state Examples.committedInst.
Proof.
  apply (frozen_after_commit 64 Examples.committedInst). vm_compute. discriminate.
Defined.

(** ** updateInstanceState *)

Section UpdateInstanceState.
Context {Command Ballot : Type}.
Implicit Types (inst : instance Command Ballot).

Lemma set_deps_same inst : set_deps (deps inst) inst = inst.
Proof. by destruct inst. Qed.

Lemma set_seq_same inst : set_seq (seq inst) inst = inst.
Proof. by destruct inst. Qed.

(** The merge loop on an initialised map adds every listed dependency. *)
Lemma forRange_depsInsert_initialised (ds : list pb.Dependency) inst D :
  deps inst = Some D →
  forRange ds depsInsert inst
  = Done (tt, set_deps (Some (list_to_set ds ∪ D)) inst, []).
Proof.
  revert inst D. induction ds as [| d ds IH]; intros inst D HD.
  - simpl. rewrite (left_id_L ∅ (∪)), <- HD, set_deps_same. reflexivity.
  - cbn [forRange]. rewrite bind_Done with (a := tt)
      (inst1 := set_deps (Some ({[d]} ∪ D)) inst) (out1 := []).
    + rewrite (IH _ ({[d]} ∪ D)) by reflexivity. cbn [list_to_set app].
      rewrite (comm_L (∪) {[d]} (list_to_set ds)), <- (assoc_L (∪)).
      reflexivity.
    + unfold depsInsert. rewrite bind_get, HD. reflexivity.
Qed.

(** The merge loop on the nil map panics at its first insertion. *)
Lemma forRange_depsInsert_nil (ds : list pb.Dependency) inst :
  deps inst = None → ds ≠ [] →
  forRange ds depsInsert inst = Panicked NilMapWrite.
Proof.
  intros HD Hne. destruct ds as [| d ds]; [done |].
  cbn [forRange]. apply bind_Panicked. unfold depsInsert.
  by rewrite bind_get, HD.
Qed.

(** [updateInstanceState] on an instance whose map is initialised: it
    returns; the sequence number becomes [newSeq] (smaller or not); the
    dependencies are merged only when the lengths differ; and the result
    says whether the sequence numbers or the lengths differed. *)
Lemma updateInstanceState_initialised inst D newSeq newDeps :
  deps inst = Some D →
  let sameSeq := bool_decide (seq inst = newSeq) in
  let sameDeps := bool_decide (lenSlice newDeps = Z.of_nat (size D)) in
  updateInstanceState newSeq newDeps inst
  = Done (negb (sameSeq && sameDeps),
          set_deps (Some (if sameDeps then D else list_to_set newDeps ∪ D))
                   (set_seq newSeq inst),
          []).
Proof.
  intros HD sameSeq sameDeps. unfold updateInstanceState.
  rewrite bind_get. fold sameSeq.
  assert (((if negb sameSeq then modify (set_seq newSeq) else mret tt)
             : M Command Ballot unit) inst
          = Done (tt, set_seq newSeq inst, [])) as Hseq.
  { subst sameSeq. destruct (bool_decide_reflect (seq inst = newSeq)) as [<- | Hne];
      simpl; [by rewrite set_seq_same | done]. }
  rewrite (bind_Done _ _ _ _ _ _ Hseq), bind_get.
  change (deps (set_seq newSeq inst)) with (deps inst). rewrite HD. simpl.
  fold sameDeps.
  assert (((if negb sameDeps then forRange newDeps depsInsert else mret tt)
             : M Command Ballot unit) (set_seq newSeq inst)
          = Done (tt, set_deps (Some (if sameDeps then D
                                      else list_to_set newDeps ∪ D))
                               (set_seq newSeq inst), [])) as Hdeps.
  { destruct sameDeps; simpl.
    - by rewrite <- HD, <- (set_deps_same (set_seq newSeq inst)) at 1.
    - by apply forRange_depsInsert_initialised. }
  rewrite (bind_Done _ _ _ _ _ _ Hdeps). reflexivity.
Qed.

(** [updateInstanceState] on an instance whose map is nil, with a list of
    dependencies that is not empty: the lengths differ, the merge loop is
    entered and its first insertion panics. *)
Lemma updateInstanceState_nil inst newSeq newDeps :
  deps inst = None → newDeps ≠ [] →
  updateInstanceState newSeq newDeps inst = Panicked NilMapWrite.
Proof.
  intros HD Hne. unfold updateInstanceState.
  rewrite bind_get.
  set (sameSeq := bool_decide (seq inst = newSeq)).
  assert (∃ inst1, ((if negb sameSeq then modify (set_seq newSeq) else mret tt)
             : M Command Ballot unit) inst = Done (tt, inst1, [])
          ∧ deps inst1 = None) as (inst1 & Hseq & HD1).
  { destruct sameSeq; simpl; eexists; split; try reflexivity; done. }
  rewrite (bind_Done _ _ _ _ _ _ Hseq), bind_get, HD1. simpl.
  rewrite bool_decide_eq_false_2.
  - simpl. rewrite (bind_Panicked _ _ _ NilMapWrite); [done |].
    by apply forRange_depsInsert_nil.
  - unfold lenSlice. destruct newDeps; [done | simpl; lia].
Qed.

End UpdateInstanceState.

(** C9: on an instance whose dependency map was never initialised (as
    [newInstance] leaves it), [updateInstanceState] with one new dependency
    does not return the merged set: it panics on the write to the nil
    map. *)
Theorem updateInstanceState_fresh_panics :
  updateInstanceState 2 [Examples.dep 0 1] Examples.fresh
  = Panicked NilMapWrite.
Proof. reflexivity. Qed.

(** On initialised maps the three behaviours of [updateInstanceState]: a
    smaller sequence number replaces a larger one; dependency sets of the
    same size are not merged although they differ; the result is [true] iff
    the sequence numbers or the lengths differ. *)
Example updateInstanceState_seq_decreases :
  ∃ inst' out,
    updateInstanceState 3 [Examples.dep 0 1] Examples.committedInst
    = Done (true, inst', out) ∧ seq Examples.committedInst = 5 ∧ seq inst' = 3.
Proof. eexists _, _. by vm_compute. Qed.

Example updateInstanceState_same_length_unmerged :
  ∃ inst' out,
    updateInstanceState 5 [Examples.dep 2 2] Examples.committedInst
    = Done (false, inst', out)
    ∧ deps inst' = Some {[Examples.dep 0 1]}.
Proof. eexists _, _. by vm_compute. Qed.

(** ** Accept and Commit on an instance whose map is nil *)

Section NilMap.
Context {Command Ballot : Type}.
Implicit Types (inst : instance Command Ballot).

Lemma onAccept_nil_map (a : pb.InstanceState Command) inst :
  state inst = none ∨ state inst = preAccepted →
  deps inst = None → pb.Deps a ≠ [] →
  exec (onAccept a) inst = Panicked NilMapWrite.
Proof.
  intros Hst HD Hne. unfold exec, onAccept.
  rewrite (bind_Done _ _ _ _ _ _ (isStates_run _ _)).
  assert (existsb (λ s, bool_decide (s = state inst)) [none; preAccepted] = true)
    as -> by (destruct Hst as [-> | ->]; reflexivity).
  cbn [negb]. rewrite bind_modify, (bind_Panicked _ _ _ NilMapWrite); [done |].
  by apply updateInstanceState_nil.
Qed.

Lemma onCommit_nil_map (c : pb.InstanceState Command) command inst :
  state inst = none ∨ state inst = preAccepted ∨ state inst = accepted →
  deps inst = None → pb.Command_ c = Some command → pb.Deps c ≠ [] →
  exec (onCommit c) inst = Panicked NilMapWrite.
Proof.
  intros Hst HD Hc Hne. unfold exec, onCommit.
  rewrite (bind_Done _ _ _ _ _ _ (isStates_run _ _)).
  assert (existsb (λ s, bool_decide (s = state inst))
            [none; preAccepted; accepted] = true)
    as -> by (destruct Hst as [-> | [-> | ->]]; reflexivity).
  cbn [negb]. rewrite bind_modify, Hc. unfold deref.
  rewrite bind_ret, bind_modify, (bind_Panicked _ _ _ NilMapWrite); [done |].
  by apply updateInstanceState_nil.
Qed.

(** C10: an instance as [newInstance] creates it is in state [none] with a
    nil dependency map; an Accept whose dependency list is not empty, and
    likewise a Commit (carrying its command) whose dependency list is not
    empty, passes the handler's state check, reaches the merge loop of
    [updateInstanceState] and panics on the write to the nil map. *)
Theorem fresh_instance_nil_map_write (zeroCommand : Command) (zeroBallot : Ballot)
    (rid : pb.ReplicaID) (num : pb.InstanceNum)
    (a c : pb.InstanceState Command) (command : Command) :
  pb.Deps a ≠ [] → pb.Deps c ≠ [] → pb.Command_ c = Some command →
  let inst := newInstance zeroCommand zeroBallot rid num in
  state inst = none ∧ deps inst = None
  ∧ exec (onAccept a) inst = Panicked NilMapWrite
  ∧ exec (onCommit c) inst = Panicked NilMapWrite.
Proof.
  intros Ha Hc Hcmd inst. repeat split.
  - apply onAccept_nil_map; [by left | done | done].
  - by apply (onCommit_nil_map c command); [left | | |].
Qed.

End NilMap.

Lemma fresh_instance_nil_map_write_witness :
  state Examples.fresh = none ∧ deps Examples.fresh = None
  ∧ exec (onAccept Examples.accept21) Examples.fresh = Panicked NilMapWrite
  ∧ exec (onCommit Examples.commit21) Examples.fresh = Panicked NilMapWrite.
Proof.
  apply (fresh_instance_nil_map_write 0%nat tt 1 1
           Examples.accept21 Examples.commit21 7%nat); done.
Defined.

(** ** PreAccept on a replica that is not the command leader *)

Section PreAccept.
Context {Command Ballot : Type}.
Implicit Types (inst : instance Command Ballot) (p : epaxos Command).
Implicit Types (pa : pb.InstanceState Command).

Lemma MaxSeqNum_max (a b : pb.SeqNum) : pb.MaxSeqNum a b = Z.max a b.
Proof. unfold pb.MaxSeqNum. destruct (Z.ltb_spec a b); lia. Qed.

(** The loop [depsUnion[dep] = struct{}{}] over the message's dependencies
    computes the union with the local dependencies. *)
Lemma depsUnion_union (ds : list pb.Dependency) (L : gset pb.Dependency) :
  foldl (λ D dep, {[dep]} ∪ D) L ds = L ∪ list_to_set ds.
Proof.
  revert L. induction ds as [| d ds IH]; intros L; cbn [foldl list_to_set].
  - by rewrite (right_id_L ∅ (∪)).
  - rewrite IH, (comm_L (∪) {[d]} L), <- (assoc_L (∪)). reflexivity.
Qed.

(** The slice that [depSliceFromMap] returns lists exactly the members of
    the map, each once. *)
Lemma depSliceFromMap_permutation (m : depsMap) :
  depSliceFromMap m ≡ₚ elements (members m).
Proof. apply merge_sort_Permutation. Qed.

Lemma depSliceFromMap_members (m : depsMap) :
  list_to_set (depSliceFromMap m) = members m.
Proof.
  apply leibniz_equiv. intros d.
  rewrite elem_of_list_to_set, depSliceFromMap_permutation.
  apply elem_of_elements.
Qed.

Lemma depSliceFromMap_NoDup (m : depsMap) : NoDup (depSliceFromMap m).
Proof. rewrite depSliceFromMap_permutation. apply NoDup_elements. Qed.

#[local] Instance DependencyLe_total : Total pb.DependencyLe.
Proof. intros a b. unfold pb.DependencyLe. lia. Qed.

(** The slice is in the order of [pb.Dependencies]. *)
Lemma depSliceFromMap_sorted (m : depsMap) :
  Sorted pb.DependencyLe (depSliceFromMap m).
Proof. apply (Sorted_merge_sort pb.DependencyLe). Qed.

(** The length test of line 186, for a message that lists no dependency
    twice: the union is as long as the message's list exactly when the
    local dependencies are among the message's. *)
Lemma same_length_iff_subseteq (ds : list pb.Dependency) (L : gset pb.Dependency) :
  NoDup ds →
  lenMap (Some (L ∪ list_to_set ds)) = lenSlice ds ↔ L ⊆ list_to_set ds.
Proof.
  intros Hnd. unfold lenMap, lenSlice.
  pose proof (size_list_to_set (C := gset pb.Dependency) ds Hnd) as Hsz.
  split.
  - intros Hlen.
    assert (list_to_set ds = L ∪ list_to_set ds) as Heq.
    { apply set_subseteq_size_eq; [apply union_subseteq_r | lia]. }
    rewrite Heq. apply union_subseteq_l.
  - intros Hsub. rewrite (subseteq_union_1_L _ _ Hsub). lia.
Qed.

(** What [onPreAccept] does to an instance in state [none]. *)
Lemma onPreAccept_none (bits : N) p pa inst c maxLocalSeq localDeps :
  state inst = none → pb.Command_ pa = Some c →
  seqAndDepsForCommand p c = (maxLocalSeq, localDeps) →
  let seq' := pb.MaxSeqNum (pb.SeqNum_ pa) (wrapSeq bits (maxLocalSeq + 1)) in
  let deps' := Some (localDeps ∪ list_to_set (pb.Deps pa)) in
  exec (onPreAccept bits p pa) inst
  = Done (set_deps deps' (set_seq seq' (set_cmd c (set_state preAccepted inst))),
          [Reply (if bool_decide (seq' = pb.SeqNum_ pa)
                     && bool_decide (lenMap deps' = lenSlice (pb.Deps pa))
                  then pb.MsgPreAcceptOK
                  else pb.MsgPreAcceptReply
                         {| pb.UpdatedSeqNum := seq';
                            pb.UpdatedDeps := depSliceFromMap deps' |})]).
Proof.
  intros Hst Hc Hsd seq' deps'. unfold exec, onPreAccept.
  rewrite (bind_Done _ _ _ _ _ _ (isStates_run _ _)), Hst.
  cbn [existsb negb orb]. rewrite bool_decide_eq_true_2 by done.
  cbn [negb orb]. rewrite bind_modify, Hc. unfold deref.
  rewrite bind_ret, Hsd, !bind_modify, bind_get, depsUnion_union.
  fold seq' deps'. cbn [seq deps set_deps set_seq].
  by destruct (_ && _).
Qed.

(** What [onPreAccept] does to an instance in any other state. *)
Lemma onPreAccept_ignored (bits : N) p pa inst :
  state inst ≠ none →
  exec (onPreAccept bits p pa) inst
  = Done (inst, [Debugf (state inst) (pb.MsgPreAccept pa)]).
Proof.
  intros Hst. unfold exec, onPreAccept.
  rewrite (bind_Done _ _ _ _ _ _ (isStates_run _ _)).
  cbn [existsb orb]. rewrite bool_decide_eq_false_2 by done.
  reflexivity.
Qed.

(** C2: [onPreAccept] acts only in state [none]: in every other state the
    message is ignored with a debug trace and the instance is unchanged; in
    state [none] the instance moves to [preAccepted] with the message's
    command, seq = max(msg.seq, maxLocalSeq + 1) (the sum in [pb.SeqNum]'s
    arithmetic: it is maxLocalSeq + 1 itself unless that overflows) and
    deps = localDeps ∪ msg.deps. *)
Theorem onPreAccept_acts_in_none (bits : N) p pa inst :
  (state inst ≠ none →
   exec (onPreAccept bits p pa) inst
   = Done (inst, [Debugf (state inst) (pb.MsgPreAccept pa)]))
  ∧ (state inst = none →
     ∀ c maxLocalSeq localDeps,
       pb.Command_ pa = Some c →
       seqAndDepsForCommand p c = (maxLocalSeq, localDeps) →
       ∃ inst' rep,
         exec (onPreAccept bits p pa) inst = Done (inst', [Reply rep])
         ∧ state inst' = preAccepted
         ∧ cmd inst' = c
         ∧ seq inst' = Z.max (pb.SeqNum_ pa) (wrapSeq bits (maxLocalSeq + 1))
         ∧ (0 ≤ maxLocalSeq + 1 < 2 ^ Z.of_N bits →
            seq inst' = Z.max (pb.SeqNum_ pa) (maxLocalSeq + 1))
         ∧ deps inst' = Some (localDeps ∪ list_to_set (pb.Deps pa))).
Proof.
  split; [apply onPreAccept_ignored |].
  intros Hst c maxLocalSeq localDeps Hc Hsd.
  eexists _, _. split; [by apply (onPreAccept_none bits p pa inst c) |].
  cbn [state cmd seq deps set_deps set_seq set_cmd set_state].
  rewrite MaxSeqNum_max. repeat split.
  intros Hrange. unfold wrapSeq. by rewrite Z.mod_small.
Qed.

(** C5: in state [none], after the merge, [onPreAccept] replies PreAcceptOK
    exactly when seq == msg.seq and len(deps) == len(msg.deps), and
    otherwise a PreAcceptReply with the merged sequence number and the
    merged dependencies (each once); for a message whose dependency list
    names no dependency twice, the reply is PreAcceptOK exactly when
    localDeps ⊆ msg.deps and msg.seq ≥ maxLocalSeq + 1. *)
Theorem onPreAccept_reply (bits : N) p pa inst c maxLocalSeq localDeps :
  state inst = none → pb.Command_ pa = Some c →
  seqAndDepsForCommand p c = (maxLocalSeq, localDeps) →
  ∃ inst' rep,
    exec (onPreAccept bits p pa) inst = Done (inst', [Reply rep])
    ∧ seq inst' = Z.max (pb.SeqNum_ pa) (wrapSeq bits (maxLocalSeq + 1))
    ∧ deps inst' = Some (localDeps ∪ list_to_set (pb.Deps pa))
    ∧ (rep = pb.MsgPreAcceptOK ↔
       seq inst' = pb.SeqNum_ pa ∧ lenMap (deps inst') = lenSlice (pb.Deps pa))
    ∧ (rep ≠ pb.MsgPreAcceptOK →
       ∃ ds, rep = pb.MsgPreAcceptReply
                     {| pb.UpdatedSeqNum := seq inst'; pb.UpdatedDeps := ds |}
             ∧ list_to_set ds = localDeps ∪ list_to_set (pb.Deps pa)
             ∧ NoDup ds)
    ∧ (NoDup (pb.Deps pa) →
       (rep = pb.MsgPreAcceptOK ↔
        localDeps ⊆ list_to_set (pb.Deps pa)
        ∧ wrapSeq bits (maxLocalSeq + 1) ≤ pb.SeqNum_ pa)).
Proof.
  intros Hst Hc Hsd.
  eexists _, _. split; [by apply (onPreAccept_none bits p pa inst c) |].
  cbn [state cmd seq deps set_deps set_seq set_cmd set_state].
  set (seq' := pb.MaxSeqNum _ _). set (deps' := Some _).
  assert ((if bool_decide (seq' = pb.SeqNum_ pa)
              && bool_decide (lenMap deps' = lenSlice (pb.Deps pa))
           then pb.MsgPreAcceptOK
           else pb.MsgPreAcceptReply
                  {| pb.UpdatedSeqNum := seq';
                     pb.UpdatedDeps := depSliceFromMap deps' |})
          = @pb.MsgPreAcceptOK Command
          ↔ seq' = pb.SeqNum_ pa ∧ lenMap deps' = lenSlice (pb.Deps pa)) as Hok.
  { destruct (bool_decide_reflect (seq' = pb.SeqNum_ pa));
      destruct (bool_decide_reflect (lenMap deps' = lenSlice (pb.Deps pa)));
      cbn [andb]; split; try done; intros []; done. }
  split; [subst seq'; by rewrite MaxSeqNum_max |].
  split; [done |]. split; [exact Hok |]. split.
  - intros Hrep. destruct (_ && _); [done |].
    eexists. split; [reflexivity |].
    split; [apply depSliceFromMap_members | apply depSliceFromMap_NoDup].
  - intros Hnd. rewrite Hok. subst deps'.
    rewrite (same_length_iff_subseteq _ _ Hnd).
    subst seq'. rewrite MaxSeqNum_max. split; intros []; split; try done; lia.
Qed.

End PreAccept.

Lemma onPreAccept_acts_in_none_witness :
  ∃ inst' rep,
    exec (onPreAccept 64 Examples.replica3 Examples.preAccept57) Examples.fresh
    = Done (inst', [Reply rep])
    ∧ state inst' = preAccepted
    ∧ cmd inst' = 7%nat
    ∧ seq inst' = Z.max 5 (wrapSeq 64 (4 + 1))
    ∧ (0 ≤ 4 + 1 < 2 ^ Z.of_N 64 → seq inst' = Z.max 5 (4 + 1))
    ∧ deps inst'
      = Some ({[Examples.dep 0 1]} ∪ list_to_set [Examples.dep 0 1; Examples.dep 2 2]).
Proof.
  apply (proj2 (onPreAccept_acts_in_none (Ballot := unit) 64 Examples.replica3
                  Examples.preAccept57 Examples.fresh));
    reflexivity.
Defined.

Lemma onPreAccept_reply_witness :
  ∃ inst' rep,
    exec (onPreAccept 64 Examples.replica3 Examples.preAccept57) Examples.fresh
    = Done (inst', [Reply rep])
    ∧ seq inst' = Z.max 5 (wrapSeq 64 (4 + 1))
    ∧ deps inst'
      = Some ({[Examples.dep 0 1]} ∪ list_to_set [Examples.dep 0 1; Examples.dep 2 2])
    ∧ (rep = pb.MsgPreAcceptOK ↔
       seq inst' = 5
       ∧ lenMap (deps inst') = lenSlice [Examples.dep 0 1; Examples.dep 2 2])
    ∧ (rep ≠ pb.MsgPreAcceptOK →
       ∃ ds, rep = pb.MsgPreAcceptReply
                     {| pb.UpdatedSeqNum := seq inst'; pb.UpdatedDeps := ds |}
             ∧ (list_to_set ds : gset pb.Dependency)
               = {[Examples.dep 0 1]} ∪ list_to_set [Examples.dep 0 1; Examples.dep 2 2]
             ∧ NoDup ds)
    ∧ (NoDup [Examples.dep 0 1; Examples.dep 2 2] →
       (rep = pb.MsgPreAcceptOK ↔
        {[Examples.dep 0 1]} ⊆ (list_to_set [Examples.dep 0 1; Examples.dep 2 2]
                                  : gset pb.Dependency)
        ∧ wrapSeq 64 (4 + 1) ≤ 5)).
Proof.
  apply (onPreAccept_reply (Ballot := unit) 64 Examples.replica3
           Examples.preAccept57 Examples.fresh 7%nat 4 {[Examples.dep 0 1]});
    reflexivity.
Defined.

(** The list of the message must name no dependency twice, as every list
    does that an instance sends ([depSliceFromMap]). On a PreAccept that
    names (2, 2) twice, at a replica whose local dependency (0, 1) is not in
    the message, the union has two members and the list has length two:
    the length test passes although the local dependencies are not among
    the message's. *)
Example onPreAccept_repeated_dependency :
  (∃ inst',
     exec (onPreAccept 64 Examples.replica3 Examples.preAcceptDup) Examples.fresh
     = Done (inst', [Reply pb.MsgPreAcceptOK]))
  ∧ seqAndDepsForCommand Examples.replica3 7%nat = (4, {[Examples.dep 0 1]})
  ∧ ¬ ({[Examples.dep 0 1]}
         ⊆ (list_to_set (pb.Deps Examples.preAcceptDup) : gset pb.Dependency)
       ∧ wrapSeq 64 (4 + 1) ≤ pb.SeqNum_ Examples.preAcceptDup).
Proof.
  split; [eexists; by vm_compute |]. split; [reflexivity |].
  intros [Hsub _].
  specialize (Hsub (Examples.dep 0 1)). 
  rewrite elem_of_singleton, elem_of_list_to_set in Hsub.
  specialize (Hsub eq_refl).
  by repeat (apply elem_of_cons in Hsub as [Hsub | Hsub]; [done |]);
    apply elem_of_nil in Hsub.
Qed.

(** ** State transitions *)

Section Transitions.
Context {Command Ballot : Type}.
Implicit Types (inst : instance Command Ballot) (p : epaxos Command).

Lemma exec_Done (m : M Command Ballot unit) inst inst' out :
  m inst = Done (tt, inst', out) → exec m inst = Done (inst', out).
Proof. intros Hm. unfold exec. by rewrite Hm. Qed.

Lemma exec_Done_inv (m : M Command Ballot unit) inst inst' out :
  exec m inst = Done (inst', out) → m inst = Done (tt, inst', out).
Proof.
  unfold exec. destruct (m inst) as [[[[] inst1] out1] | e]; [| done].
  by intros [= -> ->].
Qed.

Lemma exec_Panicked (m : M Command Ballot unit) inst e :
  m inst = Panicked e → exec m inst = Panicked e.
Proof. intros Hm. unfold exec. by rewrite Hm. Qed.

Lemma isStates_elem_of (valid : list instanceState) inst :
  existsb (λ s, bool_decide (s = state inst)) valid = true ↔ state inst ∈ valid.
Proof.
  rewrite existsb_exists, list_elem_of_In. split.
  - intros (s & Hin & Heq). by apply bool_decide_eq_true in Heq as <-.
  - intros Hin. exists (state inst). by rewrite bool_decide_eq_true.
Qed.

Lemma assertState_holds (valid : list instanceState) inst :
  state inst ∈ valid → assertState valid inst = Done (tt, inst, []).
Proof.
  intros Hin. unfold assertState.
  rewrite (bind_Done _ _ _ _ _ _ (isStates_run _ _)).
  by rewrite (proj2 (isStates_elem_of valid inst) Hin).
Qed.

Lemma assertState_fails (valid : list instanceState) inst :
  state inst ∉ valid →
  assertState valid inst = Panicked (UnexpectedState (state inst) valid).
Proof.
  intros Hin. unfold assertState.
  rewrite (bind_Done _ _ _ _ _ _ (isStates_run _ _)).
  destruct (existsb _ valid) eqn:Hex.
  - by apply isStates_elem_of in Hex.
  - cbn [negb]. by rewrite bind_get.
Qed.

Lemma transitionToAccept_run inst :
  state inst = preAccepted →
  transitionToAccept inst
  = Done (tt, set_state accepted inst,
          [Broadcast (pb.MsgAccept (instanceStateWithoutCommand inst))]).
Proof.
  intros Hst. unfold transitionToAccept.
  assert (state inst ∈ [preAccepted]) as Hin
    by (rewrite Hst; apply list_elem_of_here).
  rewrite (bind_Done _ _ _ _ _ _ (assertState_holds _ inst Hin)).
  by rewrite bind_modify.
Qed.

Lemma transitionToAccept_panics inst :
  state inst ≠ preAccepted →
  transitionToAccept inst = Panicked (UnexpectedState (state inst) [preAccepted]).
Proof.
  intros Hst. unfold transitionToAccept. apply bind_Panicked.
  apply assertState_fails. by rewrite list_elem_of_singleton.
Qed.

Lemma transitionToCommit_run inst :
  state inst = preAccepted ∨ state inst = accepted →
  transitionToCommit inst
  = Done (tt, set_state committed inst,
          [Broadcast (pb.MsgCommit (instanceStateWithCommand inst));
           PrepareToExecute]).
Proof.
  intros Hst. unfold transitionToCommit.
  assert (state inst ∈ [preAccepted; accepted]) as Hin
    by (rewrite !elem_of_cons; tauto).
  rewrite (bind_Done _ _ _ _ _ _ (assertState_holds _ inst Hin)).
  by rewrite bind_modify.
Qed.

End Transitions.

(** ** Reply tallying on the command leader *)

Section Leader.
Context {Command Ballot : Type}.
Implicit Types (inst : instance Command Ballot) (p : epaxos Command).
Implicit Types (m : pb.Message Command).

Lemma fastPathAvailable_run inst :
  fastPathAvailable inst = Done (negb (differentReplies inst), inst, []).
Proof. reflexivity. Qed.

(** The fast path. *)
Lemma onEitherPreAcceptReply_fast p inst :
  state inst = preAccepted →
  differentReplies inst = false → fastQuorum p (replies inst) = true →
  exec (onEitherPreAcceptReply p) inst
  = Done (set_state committed (cancelled inst),
          [Broadcast (pb.MsgCommit (instanceStateWithCommand inst));
           PrepareToExecute]).
Proof.
  intros Hst Hdiff Hfast. apply exec_Done. unfold onEitherPreAcceptReply.
  rewrite bind_get. cbv zeta. fold (replies inst). rewrite Hdiff, Hfast.
  cbn [negb andb]. unfold cancelSlowPathTimer. rewrite bind_modify.
  by rewrite transitionToCommit_run by (by left).
Qed.

(** The slow path, taken at once. *)
Lemma onEitherPreAcceptReply_slow p inst :
  state inst = preAccepted →
  differentReplies inst = true → quorum p (replies inst) = true →
  exec (onEitherPreAcceptReply p) inst
  = Done (set_state accepted (cancelled inst),
          [Broadcast (pb.MsgAccept (instanceStateWithoutCommand inst))]).
Proof.
  intros Hst Hdiff Hslow. apply exec_Done. unfold onEitherPreAcceptReply.
  rewrite bind_get. cbv zeta. fold (replies inst). rewrite Hdiff, Hslow.
  cbn [negb andb].
  rewrite (bind_Done _ _ _ _ _ _ (fastPathAvailable_run _)), Hdiff.
  cbn [negb]. unfold cancelSlowPathTimer. rewrite bind_modify.
  by rewrite transitionToAccept_run.
Qed.

(** The slow quorum without new information, short of the fast quorum: the
    timer is armed unless it is armed already. *)
Lemma onEitherPreAcceptReply_wait p inst :
  differentReplies inst = false →
  quorum p (replies inst) = true → fastQuorum p (replies inst) = false →
  exec (onEitherPreAcceptReply p) inst
  = Done (if isSet (slowPathTimer inst) then inst else armed inst, []).
Proof.
  intros Hdiff Hslow Hfast. apply exec_Done. unfold onEitherPreAcceptReply.
  rewrite bind_get. cbv zeta. fold (replies inst). rewrite Hdiff, Hslow, Hfast.
  cbn [negb andb].
  rewrite (bind_Done _ _ _ _ _ _ (fastPathAvailable_run _)), Hdiff.
  cbn [negb]. rewrite bind_get.
  by destruct (isSet (slowPathTimer inst)).
Qed.

(** Short of the slow quorum nothing happens. *)
Lemma onEitherPreAcceptReply_short p inst :
  quorum p (replies inst) = false →
  negb (differentReplies inst) && fastQuorum p (replies inst) = false →
  exec (onEitherPreAcceptReply p) inst = Done (inst, []).
Proof.
  intros Hslow Hfast. apply exec_Done. unfold onEitherPreAcceptReply.
  rewrite bind_get. cbv zeta. fold (replies inst). by rewrite Hfast, Hslow.
Qed.

(** In state [preAccepted] the two reply handlers tally the reply and then
    run [onEitherPreAcceptReply]. *)
Lemma onPreAcceptAnswer_tally (bits : N) p m inst :
  state inst = preAccepted → isPreAcceptAnswer m = true →
  onMessage bits p m inst = (tally m ;; onEitherPreAcceptReply p) inst.
Proof.
  intros Hst Hm. destruct m as [| | paReply | | |]; try done; cbn [onMessage tally].
  - unfold onPreAcceptOK. rewrite bind_isStates, Hst.
    cbn [existsb orb]. by rewrite bool_decide_eq_true_2.
  - unfold onPreAcceptReply. rewrite bind_isStates, Hst.
    cbn [existsb orb]. rewrite bool_decide_eq_true_2 by done.
    cbn [orb negb]. unfold_M.
    destruct (updateInstanceState _ _ inst) as [[[changed inst1] out1] | e];
      [| done].
    destruct (onEitherPreAcceptReply p _) as [[[[] inst2] out2] | e]; [| done].
    by rewrite !app_nil_r, (app_nil_l out2).
Qed.

Lemma tally_run_exec (bits : N) p m inst t :
  state inst = preAccepted → isPreAcceptAnswer m = true →
  tally m inst = Done (tt, t, []) →
  exec (onMessage bits p m) inst = exec (onEitherPreAcceptReply p) t.
Proof.
  intros Hst Hm Ht. unfold exec.
  rewrite (onPreAcceptAnswer_tally bits p m inst Hst Hm).
  rewrite (bind_Done _ _ _ _ _ _ Ht).
  by destruct (onEitherPreAcceptReply p t) as [[[[] inst2] out2] | e].
Qed.

(** When [updateInstanceState] returns, it has set the sequence number and
    the dependency map and nothing else, and has emitted nothing. *)
Lemma updateInstanceState_frame inst newSeq newDeps changed inst' out :
  updateInstanceState newSeq newDeps inst = Done (changed, inst', out) →
  out = [] ∧ ∃ D', inst' = set_deps D' (set_seq newSeq inst).
Proof.
  destruct (deps inst) as [D |] eqn:HD.
  - rewrite (updateInstanceState_initialised inst D newSeq newDeps HD).
    intros [= <- <- <-]. eauto.
  - destruct newDeps as [| d ds].
    + unfold updateInstanceState. rewrite bind_get.
      assert (((if negb (bool_decide (seq inst = newSeq))
                then modify (set_seq newSeq) else mret tt)
               : M Command Ballot unit) inst
              = Done (tt, set_seq newSeq inst, [])) as Hseq.
      { destruct (bool_decide_reflect (seq inst = newSeq)) as [<- | Hne];
          simpl; [by rewrite set_seq_same | done]. }
      rewrite (bind_Done _ _ _ _ _ _ Hseq), bind_get.
      change (deps (set_seq newSeq inst)) with (deps inst). rewrite HD.
      cbn. intros [= <- <- <-]. split; [done |].
      exists None. rewrite <- HD.
      change (deps inst) with (deps (set_seq newSeq inst)).
      by rewrite set_deps_same.
    + by rewrite updateInstanceState_nil.
Qed.

(** Tallying leaves the state and the timer alone. *)
Lemma tally_frame m inst t out :
  tally m inst = Done (tt, t, out) →
  state t = state inst ∧ slowPathTimer t = slowPathTimer inst ∧ out = [].
Proof.
  destruct m as [| | paReply | | |]; cbn [tally]; try by intros [= <- <-].
  unfold_M.
  destruct (updateInstanceState _ _ inst) as [[[changed inst1] out1] | e] eqn:Hup;
    [| done].
  apply updateInstanceState_frame in Hup as [-> [D' ->]].
  by intros [= <- <-].
Qed.

(** On an instance whose dependency map is initialised the tally
    returns. *)
Lemma tally_returns m inst D :
  deps inst = Some D → ∃ t, tally m inst = Done (tt, t, []).
Proof.
  intros HD. destruct m as [| | paReply | | |]; cbn [tally];
    try (eexists; reflexivity).
  eexists.
  rewrite (bind_Done _ _ _ _ _ _
             (updateInstanceState_initialised inst D _ _ HD)).
  by rewrite bind_modify.
Qed.

(** C1: on the command leader in state [preAccepted], once a PreAcceptOK or
    a PreAcceptReply is tallied and replies = preAcceptReplies + 1: if no
    reply carried new information and replies reaches the fast quorum, the
    slow-path timer is cancelled, the instance becomes [committed] and
    Commit is broadcast (whether or not the slow quorum is reached too);
    if some reply carried new information and replies reaches the slow
    quorum, the slow-path timer is cancelled, the instance becomes
    [accepted] and Accept is broadcast, within the same event. *)
Theorem preAccept_replies_fast_and_slow_path (bits : N) p m inst t :
  state inst = preAccepted → isPreAcceptAnswer m = true →
  tally m inst = Done (tt, t, []) →
  (differentReplies t = false →
   fastQuorum p (wrapInt (preAcceptReplies t + 1)) = true →
   ∃ inst',
     exec (onMessage bits p m) inst
     = Done (inst', [Broadcast (pb.MsgCommit (instanceStateWithCommand t));
                     PrepareToExecute])
     ∧ state inst' = committed
     ∧ isSet (slowPathTimer inst') = false
     ∧ seq inst' = seq t ∧ deps inst' = deps t ∧ cmd inst' = cmd t)
  ∧ (differentReplies t = true →
     quorum p (wrapInt (preAcceptReplies t + 1)) = true →
     ∃ inst',
       exec (onMessage bits p m) inst
       = Done (inst', [Broadcast (pb.MsgAccept (instanceStateWithoutCommand t))])
       ∧ state inst' = accepted
       ∧ isSet (slowPathTimer inst') = false
       ∧ seq inst' = seq t ∧ deps inst' = deps t ∧ cmd inst' = cmd t).
Proof.
  intros Hst Hm Ht.
  pose proof (tally_frame _ _ _ _ Ht) as [Hstt _]. rewrite Hst in Hstt.
  rewrite (tally_run_exec bits p m inst t Hst Hm Ht).
  split; intros Hdiff Hq.
  - rewrite (onEitherPreAcceptReply_fast p t Hstt Hdiff Hq). by eexists.
  - rewrite (onEitherPreAcceptReply_slow p t Hstt Hdiff Hq). by eexists.
Qed.

End Leader.

(** ** The slow-path timer *)

Section SlowPathTimer.
Context {Command Ballot : Type}.
Implicit Types (inst : instance Command Ballot) (p : epaxos Command).
Implicit Types (m : pb.Message Command).

Lemma countedDown_same inst n :
  remaining (slowPathTimer inst) = Some n → countedDown n inst = inst.
Proof.
  destruct inst as [? ? ? ? ? ? ? ? ? [tmo rem] ?]. cbn. by intros ->.
Qed.

(** A tick on an unarmed timer does nothing. *)
Lemma onTick_unarmed inst :
  remaining (slowPathTimer inst) = None → exec onTick inst = Done (inst, []).
Proof.
  intros Hrem. apply exec_Done. unfold onTick, tickTimer.
  rewrite bind_get, Hrem, bind_modify.
  by destruct inst as [? ? ? ? ? ? ? ? ? [tmo rem] ?].
Qed.

(** A tick with more than one tick remaining counts down, and nothing
    else. *)
Lemma onTick_counts inst n :
  remaining (slowPathTimer inst) = Some (S (S n)) →
  exec onTick inst = Done (countedDown (S n) inst, []).
Proof.
  intros Hrem. apply exec_Done. unfold onTick, tickTimer.
  rewrite bind_get, Hrem. cbn [Nat.pred].
  rewrite bool_decide_eq_false_2 by done. by rewrite bind_modify.
Qed.

(** The last tick runs the callback: on an instance in [preAccepted] the
    instance becomes [accepted] and Accept is broadcast. *)
Lemma onTick_fires inst :
  remaining (slowPathTimer inst) = Some 1%nat → state inst = preAccepted →
  exec onTick inst
  = Done (set_state accepted (cancelled inst),
          [Broadcast (pb.MsgAccept (instanceStateWithoutCommand inst))]).
Proof.
  intros Hrem Hst. apply exec_Done. unfold onTick, tickTimer.
  rewrite bind_get, Hrem. cbn [Nat.pred].
  rewrite bool_decide_eq_true_2 by done. rewrite bind_modify.
  by rewrite transitionToAccept_run.
Qed.

(** On an instance in any other state the callback fails its assertion. *)
Lemma onTick_fires_outside_preAccepted inst :
  remaining (slowPathTimer inst) = Some 1%nat → state inst ≠ preAccepted →
  exec onTick inst = Panicked (UnexpectedState (state inst) [preAccepted]).
Proof.
  intros Hrem Hst. apply exec_Panicked. unfold onTick, tickTimer.
  rewrite bind_get, Hrem. cbn [Nat.pred].
  rewrite bool_decide_eq_true_2 by done. rewrite bind_modify.
  by rewrite transitionToAccept_panics.
Qed.

Lemma run_cons (bits : N) (pe : epaxos Command * event Command) evs inst :
  run bits (pe :: evs) inst = (step bits pe ≫= λ _, run bits evs) inst.
Proof. reflexivity. Qed.

Lemma exec_run_cons (bits : N) (pe : epaxos Command * event Command) evs
    inst inst1 out1 :
  exec (step bits pe) inst = Done (inst1, out1) →
  exec (run bits (pe :: evs)) inst
  = match exec (run bits evs) inst1 with
    | Done (inst2, out2) => Done (inst2, out1 ++ out2)
    | Panicked e => Panicked e
    end.
Proof.
  intros Hstep%exec_Done_inv. unfold exec.
  rewrite run_cons, (bind_Done _ _ _ _ _ _ Hstep).
  by destruct (run bits evs inst1) as [[[[] inst2] out2] | e].
Qed.

(** [after] is the instance that [run] returns. *)
Lemma after_run (bits : N) (evs : list (epaxos Command * event Command)) inst inst' :
  after bits inst evs = Some inst' ↔
  ∃ out, exec (run bits evs) inst = Done (inst', out).
Proof.
  revert inst. induction evs as [| pe evs IH]; intros inst; cbn [after].
  - split; [intros [= <-]; by exists [] | by intros [out [= <-]]].
  - destruct (exec (step bits pe) inst) as [[inst1 out1] | e] eqn:Hstep.
    + rewrite (exec_run_cons bits pe evs inst inst1 out1 Hstep), IH.
      destruct (exec (run bits evs) inst1) as [[inst2 out2] | e2].
      * split; intros [out [= <-]]; eauto.
      * split; by intros [out ?].
    + split; [done |]. intros [out Hrun]. unfold exec in *.
      rewrite run_cons in Hrun.
      destruct (step bits pe inst) as [[[[] inst1] out1] | e1] eqn:Hs; [done |].
      by rewrite (bind_Panicked _ _ _ e1 Hs) in Hrun.
Qed.

(** While fewer ticks have passed than the timer was armed for, the timer
    counts down and nothing else happens. *)
Lemma ticks_count_down (bits : N) p (k n : nat) inst :
  remaining (slowPathTimer inst) = Some n → (k < n)%nat →
  exec (run bits (replicate k (p, Tick))) inst
  = Done (countedDown (n - k) inst, []).
Proof.
  revert n inst. induction k as [| k IH]; intros n inst Hrem Hlt.
  - cbn [replicate]. rewrite Nat.sub_0_r, (countedDown_same _ _ Hrem).
    reflexivity.
  - destruct n as [| [| n]]; [lia | lia |]. cbn [replicate].
    rewrite (exec_run_cons bits (p, Tick) _ inst _ _ (onTick_counts inst n Hrem)).
    rewrite (IH (S n) (countedDown (S n) inst)) by (done || lia).
    reflexivity.
Qed.

(** The tick that completes the count fires the timer. *)
Lemma ticks_fire (bits : N) p (n : nat) inst :
  remaining (slowPathTimer inst) = Some (S n) → state inst = preAccepted →
  exec (run bits (replicate (S n) (p, Tick))) inst
  = Done (set_state accepted (cancelled inst),
          [Broadcast (pb.MsgAccept (instanceStateWithoutCommand inst))]).
Proof.
  revert inst. induction n as [| n IH]; intros inst Hrem Hst.
  - cbn [replicate].
    by rewrite (exec_run_cons bits (p, Tick) _ inst _ _ (onTick_fires inst Hrem Hst)).
  - rewrite replicate_S.
    rewrite (exec_run_cons bits (p, Tick) _ inst _ _ (onTick_counts inst n Hrem)).
    by rewrite (IH (countedDown (S n) inst)).
Qed.

(** C6, amended: a PreAcceptOK or PreAcceptReply is tallied on the leader
    in state [preAccepted] (its timer made by [newInstance], for
    [slowPathTimout] = 2 ticks); no reply carried new information, the
    replies counting the leader reach the slow quorum and do not reach the
    fast quorum. Then: if
    the timer is armed already the event changes nothing (it is not armed
    again); if it is not, the event arms it for [slowPathTimout] ticks and
    does nothing else; when only ticks follow, after fewer than
    [slowPathTimout] of them the instance is still [preAccepted] and
    nothing was sent, and the [slowPathTimout]-th tick makes the instance
    [accepted] and broadcasts Accept. *)
Theorem slow_path_timer (bits : N) p m inst t :
  state inst = preAccepted → isPreAcceptAnswer m = true →
  tally m inst = Done (tt, t, []) →
  differentReplies t = false →
  quorum p (wrapInt (preAcceptReplies t + 1)) = true →
  fastQuorum p (wrapInt (preAcceptReplies t + 1)) = false →
  timeout (slowPathTimer t) = slowPathTimout →
  slowPathTimout = 2%nat
  ∧ (isSet (slowPathTimer t) = true →
     exec (onMessage bits p m) inst = Done (t, []))
  ∧ (isSet (slowPathTimer t) = false →
     ∃ inst1,
       exec (onMessage bits p m) inst = Done (inst1, [])
       ∧ state inst1 = preAccepted
       ∧ remaining (slowPathTimer inst1) = Some slowPathTimout
       ∧ (∀ k, (k < slowPathTimout)%nat →
            ∃ instk,
              exec (run bits (replicate k (p, Tick))) inst1 = Done (instk, [])
              ∧ state instk = preAccepted)
       ∧ ∃ inst2,
           exec (run bits (replicate slowPathTimout (p, Tick))) inst1
           = Done (inst2, [Broadcast (pb.MsgAccept (instanceStateWithoutCommand t))])
           ∧ state inst2 = accepted
           ∧ isSet (slowPathTimer inst2) = false).
Proof.
  intros Hst Hm Ht Hdiff Hslow Hfast Htmo.
  pose proof (tally_frame _ _ _ _ Ht) as [Hstt _]. rewrite Hst in Hstt.
  rewrite (tally_run_exec bits p m inst t Hst Hm Ht).
  rewrite (onEitherPreAcceptReply_wait p t Hdiff Hslow Hfast).
  split; [reflexivity |]. split; intros Hset; rewrite Hset; [done |].
  exists (armed t).
  assert (remaining (slowPathTimer (armed t)) = Some slowPathTimout) as Hrem
    by (cbn; by rewrite Htmo).
  split; [done |]. split; [done |]. split; [done |]. split.
  - intros k Hk. eexists. split; [by apply ticks_count_down |]. done.
  - exists (set_state accepted (cancelled (armed t))).
    unfold slowPathTimout in *.
    by rewrite (ticks_fire bits p 1 (armed t) Hrem Hstt).
Qed.

End SlowPathTimer.

(** ** What each handler can do to the instance *)

Section HandlerCases.
Context {Command Ballot : Type}.
Implicit Types (inst : instance Command Ballot) (p : epaxos Command).
Implicit Types (m : pb.Message Command) (ev : event Command).

Lemma bind_Done_inv {A B} (ma : M Command Ballot A) (k : A → M Command Ballot B)
    inst b inst2 out :
  (ma ≫= k) inst = Done (b, inst2, out) →
  ∃ a inst1 out1 out2,
    ma inst = Done (a, inst1, out1) ∧ k a inst1 = Done (b, inst2, out2)
    ∧ out = out1 ++ out2.
Proof.
  unfold_M. destruct (ma inst) as [[[a inst1] out1] | e]; [| done].
  destruct (k a inst1) as [[[b' inst2'] out2] | e] eqn:Hk; [| done].
  intros [= <- <- <-]. by exists a, inst1, out1, out2.
Qed.

(** Evaluates the state check of a handler in a known state. *)
Ltac check_state H Hst :=
  rewrite bind_isStates, Hst in H;
  let b := fresh "b" in
  set (b := existsb _ _) in H; vm_compute in b; subst b; cbn [negb] in H.

Lemma onPreAccept_cases (bits : N) p pa inst inst' out :
  exec (onPreAccept bits p pa) inst = Done (inst', out) →
  inst' = inst
  ∨ (state inst = none
     ∧ ∃ c s D, inst' = set_deps D (set_seq s (set_cmd c (set_state preAccepted inst)))).
Proof.
  destruct (decide (state inst = none)) as [Hst | Hst].
  - destruct (pb.Command_ pa) as [c |] eqn:Hc.
    + destruct (seqAndDepsForCommand p c) as [maxLocalSeq localDeps] eqn:Hsd.
      rewrite (onPreAccept_none bits p pa inst c _ _ Hst Hc Hsd).
      intros [= <- <-]. right. eauto.
    + intros H%exec_Done_inv. unfold onPreAccept in H.
      check_state H Hst. by rewrite bind_modify, Hc in H.
  - rewrite (onPreAccept_ignored bits p pa inst Hst). intros [= <- <-]. by left.
Qed.

Lemma onEitherPreAcceptReply_cases p t inst' out :
  state t = preAccepted →
  exec (onEitherPreAcceptReply p) t = Done (inst', out) →
  inst' = set_state committed (cancelled t)
  ∨ inst' = set_state accepted (cancelled t)
  ∨ inst' = armed t
  ∨ inst' = t.
Proof.
  intros Hst.
  destruct (differentReplies t) eqn:Hdiff;
    destruct (quorum p (replies t)) eqn:Hslow.
  - rewrite (onEitherPreAcceptReply_slow p t Hst Hdiff Hslow).
    intros [= <- <-]. auto.
  - rewrite (onEitherPreAcceptReply_short p t Hslow) by (by rewrite Hdiff).
    intros [= <- <-]. auto.
  - destruct (fastQuorum p (replies t)) eqn:Hfast.
    + rewrite (onEitherPreAcceptReply_fast p t Hst Hdiff Hfast).
      intros [= <- <-]. auto.
    + rewrite (onEitherPreAcceptReply_wait p t Hdiff Hslow Hfast).
      intros [= <- <-]. destruct (isSet _); auto.
  - destruct (fastQuorum p (replies t)) eqn:Hfast.
    + rewrite (onEitherPreAcceptReply_fast p t Hst Hdiff Hfast).
      intros [= <- <-]. auto.
    + rewrite (onEitherPreAcceptReply_short p t Hslow)
        by (by rewrite Hdiff, Hfast).
      intros [= <- <-]. auto.
Qed.

Lemma onPreAcceptAnswer_cases (bits : N) p m inst inst' out :
  isPreAcceptAnswer m = true →
  exec (onMessage bits p m) inst = Done (inst', out) →
  inst' = inst
  ∨ (state inst = preAccepted
     ∧ ∃ t, state t = preAccepted ∧ slowPathTimer t = slowPathTimer inst
            ∧ (inst' = set_state committed (cancelled t)
               ∨ inst' = set_state accepted (cancelled t)
               ∨ inst' = armed t
               ∨ inst' = t)).
Proof.
  intros Hm. destruct (decide (state inst = preAccepted)) as [Hst | Hst].
  - intros H%exec_Done_inv.
    rewrite (onPreAcceptAnswer_tally bits p m inst Hst Hm) in H.
    apply bind_Done_inv in H as ([] & t & out1 & out2 & Ht & Heither & _).
    apply tally_frame in Ht as (Hstt & Htimer & _). rewrite Hst in Hstt.
    apply exec_Done in Heither.
    apply (onEitherPreAcceptReply_cases p t _ _ Hstt) in Heither.
    right. split; [done |]. by exists t.
  - intros H%exec_Done_inv. left.
    destruct m as [| | paReply | | |]; try done; cbn [onMessage] in H.
    + unfold onPreAcceptOK in H. rewrite bind_isStates in H.
      cbn [existsb orb] in H. rewrite bool_decide_eq_false_2 in H by done.
      by injection H as <- _.
    + unfold onPreAcceptReply in H. rewrite bind_isStates in H.
      cbn [existsb orb] in H. rewrite bool_decide_eq_false_2 in H by done.
      by injection H as <- _.
Qed.

Lemma onAccept_cases (a : pb.InstanceState Command) inst inst' out :
  exec (onAccept a) inst = Done (inst', out) →
  inst' = inst
  ∨ ((state inst = none ∨ state inst = preAccepted)
     ∧ ∃ s D, inst' = set_deps D (set_seq s (set_state accepted inst))).
Proof.
  intros H%exec_Done_inv. unfold onAccept in H.
  destruct (state inst) eqn:Hst; check_state H Hst;
    try (injection H as <- _; by left).
  all: rewrite bind_modify in H;
    apply bind_Done_inv in H as (ch & inst1 & out1 & out2 & Hup & Hrep & _);
    apply updateInstanceState_frame in Hup as [_ [D' ->]];
    injection Hrep as <- _; right; eauto.
Qed.

Lemma onAcceptOK_cases p inst inst' out :
  exec (onAcceptOK p) inst = Done (inst', out) →
  inst' = inst
  ∨ (state inst = accepted
     ∧ ∃ n, inst' = set_acceptReplies n inst
            ∨ inst' = set_state committed (set_acceptReplies n inst)).
Proof.
  intros H%exec_Done_inv. unfold onAcceptOK in H.
  destruct (state inst) eqn:Hst; check_state H Hst;
    try (injection H as <- _; by left).
  rewrite bind_modify, bind_get in H. right. split; [done |].
  destruct (quorum p _).
  - rewrite transitionToCommit_run in H by (by right).
    injection H as <- _. eauto.
  - injection H as <- _. eauto.
Qed.

Lemma onCommit_cases (c : pb.InstanceState Command) inst inst' out :
  exec (onCommit c) inst = Done (inst', out) →
  inst' = inst
  ∨ ((state inst = none ∨ state inst = preAccepted ∨ state inst = accepted)
     ∧ ∃ command s D,
         inst' = set_deps D (set_seq s (set_cmd command (set_state committed inst)))).
Proof.
  intros H%exec_Done_inv. unfold onCommit in H.
  destruct (state inst) eqn:Hst; check_state H Hst;
    try (injection H as <- _; by left).
  all: rewrite bind_modify in H;
    destruct (pb.Command_ c) as [command |]; [| done];
    unfold deref in H; rewrite bind_ret, bind_modify in H;
    apply bind_Done_inv in H as (ch & inst1 & out1 & out2 & Hup & Hrep & _);
    apply updateInstanceState_frame in Hup as [_ [D' ->]];
    injection Hrep as <- _; right; eauto 10.
Qed.

Lemma onTick_cases inst inst' out :
  exec onTick inst = Done (inst', out) →
  inst' = inst
  ∨ (∃ n, remaining (slowPathTimer inst) = Some (S (S n))
          ∧ inst' = countedDown (S n) inst)
  ∨ (state inst = preAccepted ∧ inst' = set_state accepted (cancelled inst)).
Proof.
  destruct (remaining (slowPathTimer inst)) as [[| [| n]] |] eqn:Hrem.
  - intros H%exec_Done_inv. unfold onTick, tickTimer in H.
    rewrite bind_get, Hrem in H. cbn [Nat.pred] in H.
    rewrite bool_decide_eq_true_2 in H by done. rewrite bind_modify in H.
    destruct (decide (state inst = preAccepted)) as [Hst | Hst].
    + rewrite transitionToAccept_run in H by done. injection H as <- _. auto.
    + by rewrite transitionToAccept_panics in H.
  - destruct (decide (state inst = preAccepted)) as [Hst | Hst].
    + rewrite (onTick_fires inst Hrem Hst). intros [= <- <-]. auto.
    + by rewrite (onTick_fires_outside_preAccepted inst Hrem Hst).
  - rewrite (onTick_counts inst n Hrem). intros [= <- <-]. eauto.
  - rewrite (onTick_unarmed inst Hrem). intros [= <- <-]. by left.
Qed.

End HandlerCases.

(** ** Monotone state *)

Section MonotoneState.
Context {Command Ballot : Type}.
Implicit Types (inst : instance Command Ballot) (p : epaxos Command).
Implicit Types (m : pb.Message Command) (ev : event Command).

Lemma legal_refl ev (s : instanceState) : legal ev s s.
Proof. by destruct s. Qed.

Lemma unchanged_legal ev inst : 
  state_le (state inst) (state inst) ∧ legal ev (state inst) (state inst).
Proof. split; [unfold state_le; lia | apply legal_refl]. Qed.

(** One event: the state does not decrease and the transition is legal. *)
Lemma step_legal (bits : N) (pe : epaxos Command * event Command) inst inst' out :
  exec (step bits pe) inst = Done (inst', out) →
  state_le (state inst) (state inst') ∧ legal pe.2 (state inst) (state inst').
Proof.
  destruct pe as [p [m |]]; unfold step; cbn [fst snd]; intros H.
  - destruct m as [pa | | paReply | a | | c]; cbn [onMessage] in H.
    + apply onPreAccept_cases in H as [-> | [Hst (c & s & D & ->)]];
        [apply unchanged_legal |].
      cbn [state set_deps set_seq set_cmd set_state]. by rewrite Hst.
    + apply (onPreAcceptAnswer_cases bits p pb.MsgPreAcceptOK) in H
        as [-> | [Hst (t & Hstt & _ & [-> | [-> | [-> | ->]]])]];
        try apply unchanged_legal; try done;
        cbn [state set_state cancelled armed set_slowPathTimer];
        rewrite Hst, ?Hstt; done.
    + apply (onPreAcceptAnswer_cases bits p (pb.MsgPreAcceptReply paReply)) in H
        as [-> | [Hst (t & Hstt & _ & [-> | [-> | [-> | ->]]])]];
        try apply unchanged_legal; try done;
        cbn [state set_state cancelled armed set_slowPathTimer];
        rewrite Hst, ?Hstt; done.
    + apply onAccept_cases in H as [-> | [Hst (s & D & ->)]];
        [apply unchanged_legal |].
      cbn [state set_deps set_seq set_state].
      destruct Hst as [-> | ->]; [| done]. split; [done | by exists a].
    + apply onAcceptOK_cases in H as [-> | [Hst (n & [-> | ->])]];
        [apply unchanged_legal | |];
        cbn [state set_state set_acceptReplies]; by rewrite Hst.
    + apply onCommit_cases in H as [-> | [Hst (command & s & D & ->)]];
        [apply unchanged_legal |].
      cbn [state set_deps set_seq set_cmd set_state].
      destruct Hst as [-> | [-> | ->]]; [| done | done].
      split; [done | by exists c].
  - apply onTick_cases in H as [-> | [(n & _ & ->) | [Hst ->]]];
      [apply unchanged_legal | exact (unchanged_legal Tick inst) |].
    cbn [state set_state cancelled set_slowPathTimer]. by rewrite Hst.
Qed.

(** C3: along every sequence of events delivered to an instance (PreAccept,
    PreAcceptOK, PreAcceptReply, Accept, AcceptOK, Commit, timer ticks),
    every transition taken leaves the state where it is or moves it
    forward in the order none < preAccepted < accepted < committed <
    executed, and is one of: none→preAccepted, preAccepted→accepted,
    none→accepted by an Accept, preAccepted→committed,
    accepted→committed, none→committed by a Commit, committed→executed;
    and the state after the sequence is not below the state before it. *)
Theorem state_monotone (bits : N) inst (evs : list (epaxos Command * event Command)) :
  Forall (λ tr, state_le tr.1.1 tr.2 ∧ legal tr.1.2 tr.1.1 tr.2)
         (transitions bits inst evs)
  ∧ (∀ inst', after bits inst evs = Some inst' →
              state_le (state inst) (state inst')).
Proof.
  revert inst. induction evs as [| pe evs IH]; intros inst.
  - split; [constructor |]. cbn [after]. intros inst' [= <-].
    unfold state_le. lia.
  - cbn [transitions after].
    destruct (exec (step bits pe) inst) as [[inst1 out1] | e] eqn:Hstep;
      [| split; [constructor | done]].
    destruct (step_legal bits pe inst inst1 out1 Hstep) as [Hle Hlegal].
    destruct (IH inst1) as [IHtr IHafter].
    split; [by constructor |].
    intros inst' Hafter. specialize (IHafter inst' Hafter).
    unfold state_le in *. lia.
Qed.

End MonotoneState.

(** ** The timer's invariants *)

Section TimerInvariants.
Context {Command Ballot : Type}.
Implicit Types (inst : instance Command Ballot) (p : epaxos Command).
Implicit Types (m : pb.Message Command) (ev : event Command).

(** No event changes the number of ticks the timer is armed for. *)
Lemma step_timeout (bits : N) (pe : epaxos Command * event Command) inst inst' out :
  exec (step bits pe) inst = Done (inst', out) →
  timeout (slowPathTimer inst') = timeout (slowPathTimer inst).
Proof.
  destruct pe as [p [m |]]; unfold step; cbn [fst snd]; intros H.
  - destruct m as [pa | | paReply | a | | c]; cbn [onMessage] in H.
    + by apply onPreAccept_cases in H as [-> | [_ (c & s & D & ->)]].
    + apply (onPreAcceptAnswer_cases bits p pb.MsgPreAcceptOK) in H
        as [-> | [_ (t & _ & Ht & [-> | [-> | [-> | ->]]])]];
        cbn; by rewrite ?Ht.
    + apply (onPreAcceptAnswer_cases bits p (pb.MsgPreAcceptReply paReply)) in H
        as [-> | [_ (t & _ & Ht & [-> | [-> | [-> | ->]]])]];
        cbn; by rewrite ?Ht.
    + by apply onAccept_cases in H as [-> | [_ (s & D & ->)]].
    + by apply onAcceptOK_cases in H as [-> | [_ (n & [-> | ->])]].
    + by apply onCommit_cases in H as [-> | [_ (command & s & D & ->)]].
  - by apply onTick_cases in H as [-> | [(n & _ & ->) | [_ ->]]].
Qed.

Lemma after_timeout (bits : N) (evs : list (epaxos Command * event Command))
    inst inst' :
  after bits inst evs = Some inst' →
  timeout (slowPathTimer inst') = timeout (slowPathTimer inst).
Proof.
  revert inst. induction evs as [| pe evs IH]; intros inst; cbn [after].
  - by intros [= <-].
  - destruct (exec (step bits pe) inst) as [[inst1 out1] | e] eqn:Hstep;
      [| done].
    intros Hafter. rewrite (IH _ Hafter). by apply (step_timeout bits pe _ _ out1).
Qed.

Lemma newInstance_timerInv (zeroCommand : Command) (zeroBallot : Ballot) rid num :
  timerInv (newInstance zeroCommand zeroBallot rid num).
Proof. intros Hset. discriminate Hset. Qed.

(** Every event but a delivered Accept or Commit keeps the timer armed
    only in [preAccepted]: the reply handlers cancel it before they leave
    [preAccepted], and a timer that fired is unarmed. *)
Lemma step_timerInv (bits : N) (pe : epaxos Command * event Command) inst inst' out :
  isAcceptOrCommit pe.2 = false → timerInv inst →
  exec (step bits pe) inst = Done (inst', out) → timerInv inst'.
Proof.
  unfold timerInv.
  destruct pe as [p [m |]]; unfold step; cbn [fst snd]; intros Hev Hinv H.
  - destruct m as [pa | | paReply | a | | c]; cbn [onMessage] in H; try done.
    + by apply onPreAccept_cases in H as [-> | [_ (c & s & D & ->)]].
    + apply (onPreAcceptAnswer_cases bits p pb.MsgPreAcceptOK) in H
        as [-> | [_ (t & Hstt & Ht & [-> | [-> | [-> | ->]]])]];
        done.
    + apply (onPreAcceptAnswer_cases bits p (pb.MsgPreAcceptReply paReply)) in H
        as [-> | [_ (t & Hstt & Ht & [-> | [-> | [-> | ->]]])]];
        done.
    + apply onAcceptOK_cases in H as [-> | [Hst (n & [-> | ->])]]; [done | |];
        cbn; intros Hset; specialize (Hinv Hset); congruence.
  - apply onTick_cases in H as [-> | [(n & Hrem & ->) | [_ ->]]]; [done | | done].
    cbn. intros _. apply Hinv. unfold isSet. by rewrite Hrem.
Qed.

(** While the timer is armed only in [preAccepted], a tick returns: the
    callback's assertion holds whenever the timer fires. *)
Lemma onTick_returns inst :
  timerInv inst → ∃ inst' out, exec onTick inst = Done (inst', out).
Proof.
  unfold timerInv. intros Hinv.
  destruct (remaining (slowPathTimer inst)) as [[| [| n]] |] eqn:Hrem.
  - assert (state inst = preAccepted) as Hst
      by (apply Hinv; unfold isSet; by rewrite Hrem).
    eexists _, _. apply exec_Done. unfold onTick, tickTimer.
    rewrite bind_get, Hrem. cbn [Nat.pred].
    rewrite bool_decide_eq_true_2 by done. rewrite bind_modify.
    by rewrite transitionToAccept_run.
  - assert (state inst = preAccepted) as Hst
      by (apply Hinv; unfold isSet; by rewrite Hrem).
    eexists _, _. by apply onTick_fires.
  - eexists _, _. by apply onTick_counts.
  - eexists _, _. by apply onTick_unarmed.
Qed.

End TimerInvariants.

(** ** The theorems at concrete instances *)

(** The fast path: the second PreAcceptOK on a leader of a group of three.
    The slow path: a first reply that carries new information. *)
Lemma preAccept_replies_fast_and_slow_path_witness :
  (∃ inst',
     exec (onMessage 64 Examples.quiet3 pb.MsgPreAcceptOK) Examples.leaderOneReply
     = Done (inst',
             [Broadcast (pb.MsgCommit
                           {| pb.Command_ := Some 7%nat; pb.SeqNum_ := 1;
                              pb.Deps := [] |});
              PrepareToExecute])
     ∧ state inst' = committed
     ∧ isSet (slowPathTimer inst') = false
     ∧ seq inst' = 1 ∧ deps inst' = Some ∅ ∧ cmd inst' = 7%nat)
  ∧ (∃ inst',
       exec (onMessage 64 Examples.quiet3 (pb.MsgPreAcceptReply Examples.replyNew))
            Examples.leader
       = Done (inst',
               [Broadcast (pb.MsgAccept
                             {| pb.Command_ := None; pb.SeqNum_ := 2;
                                pb.Deps := [Examples.dep 0 1] |})])
       ∧ state inst' = accepted
       ∧ isSet (slowPathTimer inst') = false
       ∧ seq inst' = 2 ∧ deps inst' = Some {[Examples.dep 0 1]}
       ∧ cmd inst' = 7%nat).
Proof.
  split.
  - exact (proj1 (preAccept_replies_fast_and_slow_path 64 Examples.quiet3
                    pb.MsgPreAcceptOK Examples.leaderOneReply
                    (set_preAcceptReplies 2 Examples.leaderOneReply)
                    eq_refl eq_refl eq_refl) eq_refl eq_refl).
  - exact (proj2 (preAccept_replies_fast_and_slow_path 64 Examples.quiet3
                    (pb.MsgPreAcceptReply Examples.replyNew) Examples.leader
                    (set_preAcceptReplies 1
                       (set_differentReplies true
                          (set_deps (Some {[Examples.dep 0 1]})
                             (set_seq 2 Examples.leader))))
                    eq_refl eq_refl eq_refl) eq_refl eq_refl).
Defined.

(** The first PreAcceptOK on a leader of a group of three reaches the slow
    quorum (2) and not the fast quorum (3). *)
Lemma slow_path_timer_witness :
  slowPathTimout = 2%nat
  ∧ (isSet (slowPathTimer (set_preAcceptReplies 1 Examples.leader)) = true →
     exec (onMessage 64 Examples.quiet3 pb.MsgPreAcceptOK) Examples.leader
     = Done (set_preAcceptReplies 1 Examples.leader, []))
  ∧ (isSet (slowPathTimer (set_preAcceptReplies 1 Examples.leader)) = false →
     ∃ inst1,
       exec (onMessage 64 Examples.quiet3 pb.MsgPreAcceptOK) Examples.leader
       = Done (inst1, [])
       ∧ state inst1 = preAccepted
       ∧ remaining (slowPathTimer inst1) = Some slowPathTimout
       ∧ (∀ k, (k < slowPathTimout)%nat →
            ∃ instk,
              exec (run 64 (replicate k (Examples.quiet3, Tick))) inst1
              = Done (instk, [])
              ∧ state instk = preAccepted)
       ∧ ∃ inst2,
           exec (run 64 (replicate slowPathTimout (Examples.quiet3, Tick))) inst1
           = Done (inst2,
                   [Broadcast (pb.MsgAccept
                                 (instanceStateWithoutCommand
                                    (set_preAcceptReplies 1 Examples.leader)))])
           ∧ state inst2 = accepted
           ∧ isSet (slowPathTimer inst2) = false).
Proof.
  apply (slow_path_timer 64 Examples.quiet3 pb.MsgPreAcceptOK Examples.leader
           (set_preAcceptReplies 1 Examples.leader));
    reflexivity.
Defined.

(** Two runs in which the slow quorum is reached without new information
    and the instance does not wait for the timer. In a group where the
    slow quorum is also the fast quorum (the spec's formulas at f = 1), the
    first PreAcceptOK reaches the slow quorum and the leader commits at
    once, without arming the timer. In a group of three with fast quorum 3,
    the first PreAcceptOK arms the timer and the second, before any tick,
    commits and cancels it. *)
Lemma slow_quorum_without_timer_counterexample :
  (tally pb.MsgPreAcceptOK Examples.leader
   = Done (tt, set_preAcceptReplies 1 Examples.leader, [])
   ∧ differentReplies (set_preAcceptReplies 1 Examples.leader) = false
   ∧ quorum (Examples.formulaQuorums 1) (wrapInt (1 + 1)) = true
   ∧ isSet (slowPathTimer (set_preAcceptReplies 1 Examples.leader)) = false
   ∧ ∃ inst',
       exec (onMessage 64 (Examples.formulaQuorums 1) pb.MsgPreAcceptOK)
            Examples.leader
       = Done (inst',
               [Broadcast (pb.MsgCommit
                             {| pb.Command_ := Some 7%nat; pb.SeqNum_ := 1;
                                pb.Deps := [] |});
                PrepareToExecute])
       ∧ state inst' = committed
       ∧ isSet (slowPathTimer inst') = false)
  ∧ (∃ inst1 inst2,
       exec (onMessage 64 Examples.quiet3 pb.MsgPreAcceptOK) Examples.leader
       = Done (inst1, [])
       ∧ state inst1 = preAccepted
       ∧ remaining (slowPathTimer inst1) = Some slowPathTimout
       ∧ differentReplies inst1 = false
       ∧ exec (onMessage 64 Examples.quiet3 pb.MsgPreAcceptOK) inst1
         = Done (inst2,
                 [Broadcast (pb.MsgCommit
                               {| pb.Command_ := Some 7%nat; pb.SeqNum_ := 1;
                                  pb.Deps := [] |});
                  PrepareToExecute])
       ∧ state inst2 = committed
       ∧ isSet (slowPathTimer inst2) = false).
Proof.
  split.
  - repeat split. eexists. by vm_compute.
  - exists (armed (set_preAcceptReplies 1 Examples.leader)),
      (set_state committed
         (cancelled (set_preAcceptReplies 2 (armed Examples.leader)))).
    by vm_compute.
Qed.

Lemma state_monotone_witness :
  Forall (λ tr, state_le tr.1.1 tr.2 ∧ legal tr.1.2 tr.1.1 tr.2)
         (transitions 64 Examples.leader Examples.slowRound)
  ∧ (∀ inst', after 64 Examples.leader Examples.slowRound = Some inst' →
              state_le (state Examples.leader) (state inst')).
Proof. apply (state_monotone 64 Examples.leader Examples.slowRound). Defined.

(** The slow round moves the leader preAccepted → accepted → committed and
    then stays there. *)
Example slowRound_transitions :
  map (λ tr, (tr.1.1, tr.2)) (transitions 64 Examples.leader Examples.slowRound)
  = [(preAccepted, accepted); (accepted, committed); (committed, committed);
     (committed, committed)].
Proof. reflexivity. Qed.

(** What the routing excludes. No handler but the two that tally replies
    touches the timer: were a Commit delivered to the command leader's
    instance while its timer is armed, [onCommit] would leave the timer
    armed in [committed], and the tick that fires it would fail the
    assertion of [transitionToAccept]. *)
Example commit_leaves_timer_armed :
  (∃ inst2 out,
     exec (run 64 (take 2 Examples.commitWhileArmed)) Examples.leader
     = Done (inst2, out)
     ∧ state inst2 = committed
     ∧ remaining (slowPathTimer inst2) = Some slowPathTimout)
  ∧ exec (run 64 Examples.commitWhileArmed) Examples.leader
    = Panicked (UnexpectedState committed [preAccepted]).
Proof. split; [eexists _, _; by vm_compute | reflexivity]. Qed.

(** * Further properties of the instance file *)

(** ** The btree order and the execution order *)

Section Orders.
Context {Command Ballot : Type}.
Implicit Types (a b c inst : instance Command Ballot).

(** X1: [Less] orders instances by their instance number alone: it is a
    strict order, two instances neither of which is [Less] than the other
    have the same number, and against [instanceKey n] it compares with [n],
    so a key finds exactly the instances numbered [n]. *)
Theorem Less_orders_by_instance_number :
  (∀ a, Less a a = false)
  ∧ (∀ a b c, Less a b = true → Less b c = true → Less a c = true)
  ∧ (∀ a b, Less a b = false → Less b a = false → i a = i b)
  ∧ (∀ (zeroCommand : Command) (zeroBallot : Ballot) n inst,
       Less (instanceKey zeroCommand zeroBallot n) inst = bool_decide (n < i inst)
       ∧ Less inst (instanceKey zeroCommand zeroBallot n) = bool_decide (i inst < n)
       ∧ (Less (instanceKey zeroCommand zeroBallot n) inst = false
          ∧ Less inst (instanceKey zeroCommand zeroBallot n) = false
          ↔ i inst = n)).
Proof.
  unfold Less. split; [| split; [| split]].
  - intros a. apply bool_decide_eq_false. lia.
  - intros a b c. rewrite !bool_decide_eq_true. lia.
  - intros a b. rewrite !bool_decide_eq_false. lia.
  - intros zeroCommand zeroBallot n inst. cbn [i instanceKey].
    split; [done |]. split; [done |].
    rewrite !bool_decide_eq_false. lia.
Qed.

(** X2: [ExecutesBefore] is a strict total order on (seq, replica id): no
    instance executes before itself, the relation is transitive, of two
    instances never both execute before the other, and when neither
    executes before the other they have the same sequence number and the
    same replica. *)
Theorem ExecutesBefore_strict_total_order :
  (∀ a, ExecutesBefore a a = false)
  ∧ (∀ a b c, ExecutesBefore a b = true → ExecutesBefore b c = true →
              ExecutesBefore a c = true)
  ∧ (∀ a b, ExecutesBefore a b = true → ExecutesBefore b a = false)
  ∧ (∀ a b, ExecutesBefore a b = false → ExecutesBefore b a = false →
            seq a = seq b ∧ r a = r b).
Proof.
  split; [| split; [| split]].
  - intros a. rewrite ExecutesBefore_false. lia.
  - intros a b c. rewrite !ExecutesBefore_true. lia.
  - intros a b. rewrite ExecutesBefore_true, ExecutesBefore_false. lia.
  - intros a b. rewrite !ExecutesBefore_false. lia.
Qed.

End Orders.

(** ** Dependency slices *)

Section DependencySlices.
Context {Command Ballot : Type}.
Implicit Types (inst : instance Command Ballot) (m : depsMap).

#[local] Instance DependencyLe_trans : Transitive pb.DependencyLe.
Proof. intros a b c. unfold pb.DependencyLe. lia. Qed.

#[local] Instance DependencyLe_antisymm : AntiSymm (=) pb.DependencyLe.
Proof.
  intros [ra ia] [rb ib]. unfold pb.DependencyLe. cbn.
  intros H1 H2. f_equal; lia.
Qed.

#[local] Instance DependencyLe_total' : Total pb.DependencyLe.
Proof. intros a b. unfold pb.DependencyLe. lia. Qed.

Lemma append_each (keys acc : list pb.Dependency) :
  foldl (λ deps dep, deps ++ [dep]) acc keys = acc ++ keys.
Proof.
  revert acc. induction keys as [| k keys IH]; intros acc; cbn [foldl].
  - by rewrite app_nil_r.
  - by rewrite IH, <- app_assoc.
Qed.

(** X3: the slice that [depSliceFromMap] returns is sorted, names no
    dependency twice, names exactly the keys of the map, and is as long as
    the map; the nil map gives the empty slice. *)
Theorem depSliceFromMap_canonical m :
  canonicalDeps (depSliceFromMap m)
  ∧ (∀ d, d ∈ depSliceFromMap m ↔ d ∈ members m)
  ∧ lenSlice (depSliceFromMap m) = lenMap m
  ∧ depSliceFromMap None = [].
Proof.
  split; [split |].
  - apply (Sorted_merge_sort pb.DependencyLe).
  - unfold depSliceFromMap. rewrite merge_sort_Permutation. apply NoDup_elements.
  - split; [| split].
    + intros d. unfold depSliceFromMap.
      rewrite merge_sort_Permutation. apply elem_of_elements.
    + unfold lenSlice, lenMap, depSliceFromMap.
      rewrite merge_sort_Permutation.
      destruct m as [D |]; cbn [members default]; [done |].
      by rewrite elements_empty.
    + reflexivity.
Qed.

(** X4: the order in which Go ranges over the map does not show in the
    slice: whatever order the keys come in, appending them and sorting
    gives the slice of [depSliceFromMap]. *)
Theorem depSliceFromMap_any_iteration_order m (keys : list pb.Dependency) :
  keys ≡ₚ mapRange m →
  depSliceFromRange keys = depSliceFromMap m.
Proof.
  intros Hperm. unfold depSliceFromRange, depSliceFromMap.
  rewrite append_each, app_nil_l.
  apply (Sorted_unique pb.DependencyLe).
  - apply (Sorted_merge_sort pb.DependencyLe).
  - apply (Sorted_merge_sort pb.DependencyLe).
  - by rewrite !merge_sort_Permutation.
Qed.

(** X5: [Dependencies] and [depSlice] name the same dependencies, each
    once: the keys of [inst.deps]; [Dependencies] in the order of
    iteration, [depSlice] sorted. *)
Theorem Dependencies_depSlice inst :
  Dependencies inst ≡ₚ depSlice inst
  ∧ NoDup (Dependencies inst)
  ∧ (∀ d, d ∈ Dependencies inst ↔ d ∈ members (deps inst))
  ∧ lenSlice (Dependencies inst) = lenMap (deps inst).
Proof.
  unfold Dependencies, depSlice, depSliceFromMap, mapRange.
  rewrite append_each, app_nil_l. split; [| split; [| split]].
  - by rewrite merge_sort_Permutation.
  - apply NoDup_elements.
  - intros d. apply elem_of_elements.
  - unfold lenSlice, lenMap. destruct (deps inst) as [D |]; cbn [members default];
      [done | by rewrite elements_empty].
Qed.

End DependencySlices.

Lemma depSliceFromMap_any_iteration_order_witness :
  depSliceFromRange [Examples.dep 2 2; Examples.dep 0 1; Examples.dep 1 7]
  = depSliceFromMap (Some {[Examples.dep 0 1; Examples.dep 1 7; Examples.dep 2 2]}).
Proof.
  apply depSliceFromMap_any_iteration_order.
  apply (bool_decide_unpack _). by vm_compute.
Defined.

(** ** What the handlers return *)

Section HandlerResults.
Context {Command Ballot : Type}.
Implicit Types (inst u t : instance Command Ballot) (p : epaxos Command).
Implicit Types (m : pb.Message Command).

(** Evaluates the state check at the head of a handler, in a state that is
    known. *)
Ltac decide_state Hst :=
  rewrite bind_isStates, Hst;
  let b := fresh "b" in
  set (b := existsb _ _); vm_compute in b; subst b; cbn [negb];
  try (set (b := bool_decide _); vm_compute in b; subst b; cbn iota).

Lemma members_Some (D : gset pb.Dependency) : members (Some D) = D.
Proof. reflexivity. Qed.

Lemma members_None : members None = ∅.
Proof. reflexivity. Qed.

(** [updateInstanceState] on the nil map with no new dependency: the
    lengths agree and no write is made. *)
Lemma updateInstanceState_nil_empty inst newSeq :
  deps inst = None →
  updateInstanceState newSeq [] inst
  = Done (negb (bool_decide (seq inst = newSeq)), set_seq newSeq inst, []).
Proof.
  intros HD. unfold updateInstanceState. rewrite bind_get.
  assert (((if negb (bool_decide (seq inst = newSeq))
            then modify (set_seq newSeq) else mret tt)
           : M Command Ballot unit) inst
          = Done (tt, set_seq newSeq inst, [])) as Hseq.
  { destruct (bool_decide_reflect (seq inst = newSeq)) as [<- | Hne];
      cbn [negb]; [by rewrite set_seq_same | done]. }
  rewrite (bind_Done _ _ _ _ _ _ Hseq), bind_get.
  change (deps (set_seq newSeq inst)) with (deps inst). rewrite HD.
  change (bool_decide (lenSlice (@nil pb.Dependency) = lenMap None)) with true.
  cbn [negb]. rewrite bind_ret. by rewrite andb_true_r.
Qed.

(** Whenever [updateInstanceState] returns, the instance is [updated]. *)
Lemma updateInstanceState_updated inst newSeq newDeps changed u out :
  updateInstanceState newSeq newDeps inst = Done (changed, u, out) →
  out = [] ∧ updated inst u ∧ seq u = newSeq.
Proof.
  destruct (deps inst) as [D |] eqn:HD.
  - rewrite (updateInstanceState_initialised inst D newSeq newDeps HD).
    intros [= <- <- <-]. split; [done |]. split; [| done].
    eexists _, _. split; [reflexivity |]. rewrite HD, !members_Some.
    split; [| by eauto].
    destruct (bool_decide _); [done |].
    intros x Hx. apply elem_of_union. by right.
  - destruct newDeps as [| d ds].
    + rewrite (updateInstanceState_nil_empty inst newSeq HD).
      intros [= <- <- <-]. split; [done |]. split; [| done].
      exists newSeq, None. rewrite HD. split; [| split; [done |]].
      * rewrite <- HD. change (deps inst) with (deps (set_seq newSeq inst)).
        by rewrite set_deps_same.
      * by intros [? ?].
    + by rewrite updateInstanceState_nil.
Qed.

Lemma updated_refl inst : updated inst inst.
Proof.
  exists (seq inst), (deps inst). split; [| split; [done | done]].
  by rewrite set_seq_same, set_deps_same.
Qed.

(** The tally of a reply. *)
Lemma tally_shape m inst t out :
  tally m inst = Done (tt, t, out) →
  out = [] ∧ ∃ u, updated inst u ∧ counted u t.
Proof.
  destruct m as [| | paReply | | |]; cbn [tally].
  - intros [= <- <-]. split; [done |]. exists inst. split; [apply updated_refl |].
    exists (preAcceptReplies inst), (differentReplies inst). by destruct inst.
  - intros [= <- <-]. split; [done |]. exists inst. split; [apply updated_refl |].
    eexists _, (differentReplies inst). by destruct inst.
  - intros H. apply bind_Done_inv in H
      as (changed & u & out1 & out2 & Hup & Hrest & ->).
    apply updateInstanceState_updated in Hup as (-> & Hup & _).
    rewrite !bind_modify in Hrest. injection Hrest as <- <-.
    split; [done |]. exists u. split; [done |].
    eexists _, _. by destruct u.
  - intros [= <- <-]. split; [done |]. exists inst. split; [apply updated_refl |].
    exists (preAcceptReplies inst), (differentReplies inst). by destruct inst.
  - intros [= <- <-]. split; [done |]. exists inst. split; [apply updated_refl |].
    exists (preAcceptReplies inst), (differentReplies inst). by destruct inst.
  - intros [= <- <-]. split; [done |]. exists inst. split; [apply updated_refl |].
    exists (preAcceptReplies inst), (differentReplies inst). by destruct inst.
Qed.

(** [onEitherPreAcceptReply] in [preAccepted] always returns, in one of
    four ways. *)
Lemma onEitherPreAcceptReply_run p t :
  state t = preAccepted →
  exec (onEitherPreAcceptReply p) t
  = if negb (differentReplies t) && fastQuorum p (replies t)
    then Done (set_state committed (cancelled t),
               [Broadcast (pb.MsgCommit (instanceStateWithCommand t));
                PrepareToExecute])
    else if quorum p (replies t)
    then if differentReplies t
         then Done (set_state accepted (cancelled t),
                    [Broadcast (pb.MsgAccept (instanceStateWithoutCommand t))])
         else Done (if isSet (slowPathTimer t) then t else armed t, [])
    else Done (t, []).
Proof.
  intros Hst.
  destruct (differentReplies t) eqn:Hdiff;
    destruct (quorum p (replies t)) eqn:Hslow; cbn [negb andb].
  - by apply onEitherPreAcceptReply_slow.
  - apply onEitherPreAcceptReply_short; [done | by rewrite Hdiff].
  - destruct (fastQuorum p (replies t)) eqn:Hfast.
    + by apply onEitherPreAcceptReply_fast.
    + by apply onEitherPreAcceptReply_wait.
  - destruct (fastQuorum p (replies t)) eqn:Hfast.
    + by apply onEitherPreAcceptReply_fast.
    + apply onEitherPreAcceptReply_short; [done | by rewrite Hdiff, Hfast].
Qed.

(** [onAccept]. *)
Lemma onAccept_run (a : pb.InstanceState Command) inst :
  exec (onAccept a) inst
  = if bool_decide (state inst = none ∨ state inst = preAccepted)
    then match updateInstanceState (pb.SeqNum_ a) (pb.Deps a)
                 (set_state accepted inst) with
         | Done (_, u, out) => Done (u, out ++ [Reply pb.MsgAcceptOK])
         | Panicked e => Panicked e
         end
    else Done (inst, [Debugf (state inst) (pb.MsgAccept a)]).
Proof.
  unfold exec, onAccept.
  destruct (state inst) eqn:Hst; decide_state Hst;
    try (unfold_M; by rewrite Hst).
  all: rewrite bind_modify; unfold_M;
    by destruct (updateInstanceState _ _ _) as [[[ch u] out] | e].
Qed.

(** [onCommit]. *)
Lemma onCommit_run (c : pb.InstanceState Command) inst :
  exec (onCommit c) inst
  = if bool_decide (state inst = none ∨ state inst = preAccepted
                    ∨ state inst = accepted)
    then match pb.Command_ c with
         | None => Panicked NilDereference
         | Some command =>
             match updateInstanceState (pb.SeqNum_ c) (pb.Deps c)
                     (set_cmd command (set_state committed inst)) with
             | Done (_, u, out) => Done (u, out ++ [PrepareToExecute])
             | Panicked e => Panicked e
             end
         end
    else Done (inst, [Debugf (state inst) (pb.MsgCommit c)]).
Proof.
  unfold exec, onCommit.
  destruct (state inst) eqn:Hst; decide_state Hst;
    try (unfold_M; by rewrite Hst).
  all: rewrite bind_modify; destruct (pb.Command_ c) as [command |];
    [| reflexivity]; unfold deref; rewrite bind_ret, bind_modify; unfold_M;
    by destruct (updateInstanceState _ _ _) as [[[ch u] out] | e].
Qed.

(** [onAcceptOK]. *)
Lemma onAcceptOK_run p inst :
  exec (onAcceptOK p) inst
  = if bool_decide (state inst = accepted)
    then let inst1 := set_acceptReplies (wrapInt (acceptReplies inst + 1)) inst in
         if quorum p (wrapInt (acceptReplies inst1 + 1))
         then Done (set_state committed inst1,
                    [Broadcast (pb.MsgCommit (instanceStateWithCommand inst1));
                     PrepareToExecute])
         else Done (inst1, [])
    else Done (inst, [Debugf (state inst) pb.MsgAcceptOK]).
Proof.
  unfold exec, onAcceptOK.
  destruct (state inst) eqn:Hst; decide_state Hst;
    try (unfold_M; by rewrite Hst).
  rewrite bind_modify, bind_get. cbv zeta.
  destruct (quorum p _); [| reflexivity].
  by rewrite transitionToCommit_run by (by right).
Qed.

(** The two reply handlers outside [preAccepted]. *)
Lemma onPreAcceptAnswer_ignored (bits : N) p m inst :
  isPreAcceptAnswer m = true → state inst ≠ preAccepted →
  exec (onMessage bits p m) inst = Done (inst, [Debugf (state inst) m]).
Proof.
  intros Hm Hst. unfold exec.
  destruct m as [| | paReply | | |]; try done; cbn [onMessage].
  - unfold onPreAcceptOK. rewrite bind_isStates.
    cbn [existsb orb]. by rewrite bool_decide_eq_false_2.
  - unfold onPreAcceptReply. rewrite bind_isStates.
    cbn [existsb orb]. by rewrite bool_decide_eq_false_2.
Qed.

(** [onPreAccept] on a message without its command. *)
Lemma onPreAccept_nil_command (bits : N) p pa inst :
  state inst = none → pb.Command_ pa = None →
  exec (onPreAccept bits p pa) inst = Panicked NilDereference.
Proof.
  intros Hst Hc. unfold exec, onPreAccept.
  decide_state Hst. by rewrite bind_modify, Hc.
Qed.

End HandlerResults.

(** ** Every step that returns has one of the shapes of [moves] *)

Section StepShapes.
Context {Command Ballot : Type}.
Implicit Types (inst u t : instance Command Ballot) (p : epaxos Command).
Implicit Types (m : pb.Message Command).

Lemma set_slowPathTimer_same inst :
  set_slowPathTimer (slowPathTimer inst) inst = inst.
Proof. by destruct inst. Qed.


Lemma onMessage_answer_moves (bits : N) p m inst inst' out :
  isPreAcceptAnswer m = true →
  exec (onMessage bits p m) inst = Done (inst', out) →
  moves inst inst' out.
Proof.
  intros Hm H. destruct (decide (state inst = preAccepted)) as [Hst | Hst].
  - apply exec_Done_inv in H.
    rewrite (onPreAcceptAnswer_tally bits p m inst Hst Hm) in H.
    apply bind_Done_inv in H as ([] & t & out1 & out2 & Ht & Heither & ->).
    pose proof (tally_frame _ _ _ _ Ht) as (Hstt & _ & _). rewrite Hst in Hstt.
    apply tally_shape in Ht as (-> & u & Hu & Hc).
    apply exec_Done in Heither.
    rewrite (onEitherPreAcceptReply_run p t Hstt) in Heither.
    cbn [app].
    destruct (negb (differentReplies t) && fastQuorum p (replies t)).
    { injection Heither as <- <-. by apply (moves_fast inst u t). }
    destruct (quorum p (replies t)).
    + destruct (differentReplies t).
      * injection Heither as <- <-. by apply (moves_slow inst u t).
      * injection Heither as <- <-. destruct (isSet (slowPathTimer t)).
        -- rewrite <- (set_slowPathTimer_same t) at 1.
           by apply (moves_wait inst u t).
        -- by apply (moves_wait inst u t).
    + injection Heither as <- <-.
      rewrite <- (set_slowPathTimer_same t) at 1. by apply (moves_wait inst u t).
  - rewrite (onPreAcceptAnswer_ignored bits p m inst Hm Hst) in H.
    injection H as <- <-. constructor.
Qed.

Lemma onTick_moves inst inst' out :
  exec onTick inst = Done (inst', out) → moves inst inst' out.
Proof.
  destruct (remaining (slowPathTimer inst)) as [[| [| n]] |] eqn:Hrem.
  - intros H%exec_Done_inv. unfold onTick, tickTimer in H.
    rewrite bind_get, Hrem in H. cbn [Nat.pred] in H.
    rewrite bool_decide_eq_true_2 in H by done. rewrite bind_modify in H.
    destruct (decide (state inst = preAccepted)) as [Hst | Hst].
    + rewrite transitionToAccept_run in H by done. injection H as <- <-.
      exact (moves_fire inst Hst).
    + by rewrite transitionToAccept_panics in H.
  - destruct (decide (state inst = preAccepted)) as [Hst | Hst].
    + rewrite (onTick_fires inst Hrem Hst). intros [= <- <-].
      exact (moves_fire inst Hst).
    + by rewrite (onTick_fires_outside_preAccepted inst Hrem Hst).
  - rewrite (onTick_counts inst n Hrem). intros [= <- <-]. apply moves_tick.
  - rewrite (onTick_unarmed inst Hrem). intros [= <- <-].
    rewrite <- (set_slowPathTimer_same inst) at 2. apply moves_tick.
Qed.

Lemma step_moves (bits : N) (pe : epaxos Command * event Command) inst inst' out :
  exec (step bits pe) inst = Done (inst', out) → moves inst inst' out.
Proof.
  destruct pe as [p [m |]]; unfold step; cbn [fst snd]; intros H;
    [| by apply onTick_moves].
  destruct m as [pa | | paReply | a | | c]; cbn [onMessage] in H.
  - destruct (decide (state inst = none)) as [Hst | Hst].
    + destruct (pb.Command_ pa) as [c |] eqn:Hc.
      * destruct (seqAndDepsForCommand p c) as [maxLocalSeq localDeps] eqn:Hsd.
        rewrite (onPreAccept_none bits p pa inst c _ _ Hst Hc Hsd) in H.
        injection H as <- <-. apply moves_preAccept; [done |].
        destruct (_ && _); [exact I |].
        split; [apply depSliceFromMap_sorted | apply depSliceFromMap_NoDup].
      * by rewrite (onPreAccept_nil_command bits p pa inst Hst Hc) in H.
    + rewrite (onPreAccept_ignored bits p pa inst Hst) in H.
      injection H as <- <-. constructor.
  - by apply (onMessage_answer_moves bits p pb.MsgPreAcceptOK).
  - by apply (onMessage_answer_moves bits p (pb.MsgPreAcceptReply paReply)).
  - rewrite onAccept_run in H.
    destruct (bool_decide_reflect (state inst = none ∨ state inst = preAccepted))
      as [Hst | Hst].
    + destruct (updateInstanceState _ _ _) as [[[ch u] out1] | e] eqn:Hup;
        [| done].
      injection H as <- <-.
      apply updateInstanceState_updated in Hup as (-> & Hup & _).
      by apply moves_accept.
    + injection H as <- <-. constructor.
  - rewrite onAcceptOK_run in H.
    destruct (bool_decide_reflect (state inst = accepted)) as [Hst | Hst].
    + cbv zeta in H. destruct (quorum p _); injection H as <- <-.
      * by apply moves_acceptOK_commit.
      * by apply moves_acceptOK.
    + injection H as <- <-. constructor.
  - rewrite onCommit_run in H.
    destruct (bool_decide_reflect
                (state inst = none ∨ state inst = preAccepted
                 ∨ state inst = accepted)) as [Hst | Hst].
    + destruct (pb.Command_ c) as [command |]; [| done].
      destruct (updateInstanceState _ _ _) as [[[ch u] out1] | e] eqn:Hup;
        [| done].
      injection H as <- <-.
      apply updateInstanceState_updated in Hup as (-> & Hup & _).
      by apply (moves_commit inst command).
    + injection H as <- <-. constructor.
Qed.

(** A run that returns is a chain of steps that return. *)
Lemma exec_run_nil (bits : N) inst inst' (out : list (effect Command)) :
  exec (run bits []) inst = Done (inst', out) → inst' = inst ∧ out = [].
Proof. by intros [= <- <-]. Qed.

Lemma exec_run_cons_inv (bits : N) (pe : epaxos Command * event Command) evs
    inst inst' out :
  exec (run bits (pe :: evs)) inst = Done (inst', out) →
  ∃ inst1 out1 out2,
    exec (step bits pe) inst = Done (inst1, out1)
    ∧ exec (run bits evs) inst1 = Done (inst', out2)
    ∧ out = out1 ++ out2.
Proof.
  destruct (exec (step bits pe) inst) as [[inst1 out1] | e] eqn:Hstep.
  - rewrite (exec_run_cons bits pe evs inst inst1 out1 Hstep).
    destruct (exec (run bits evs) inst1) as [[inst2 out2] | e2] eqn:Hrest;
      [| done].
    intros [= <- <-]. by exists inst1, out1, out2.
  - intros Hrun. apply exec_Done_inv in Hrun. rewrite run_cons in Hrun.
    unfold exec in Hstep.
    destruct (step bits pe inst) as [[[[] inst1] out1] | e1] eqn:Hs; [done |].
    by rewrite (bind_Panicked _ _ _ e1 Hs) in Hrun.
Qed.

(** An invariant of the shapes holds along every run that returns. *)
Lemma run_moves_ind (bits : N)
    (P : instance Command Ballot → instance Command Ballot →
         list (effect Command) → Prop) :
  (∀ inst, P inst inst []) →
  (∀ inst inst1 inst2 out1 out2,
     moves inst inst1 out1 → P inst1 inst2 out2 → P inst inst2 (out1 ++ out2)) →
  ∀ (evs : list (epaxos Command * event Command)) inst inst' out,
    exec (run bits evs) inst = Done (inst', out) → P inst inst' out.
Proof.
  intros Hnil Hcons evs.
  induction evs as [| pe evs IH]; intros inst inst' out Hrun.
  - apply exec_run_nil in Hrun as [-> ->]. apply Hnil.
  - apply exec_run_cons_inv in Hrun
      as (inst1 & out1 & out2 & Hstep & Hrun & ->).
    apply (Hcons inst inst1); [by apply (step_moves bits pe) | by apply IH].
Qed.

End StepShapes.

(** ** Invariants of every run *)

Section RunInvariants.
Context {Command Ballot : Type}.
Implicit Types (inst u t : instance Command Ballot) (p : epaxos Command).
Implicit Types (m : pb.Message Command).

(** Takes a shape apart. *)
Ltac invert_moves H :=
  destruct H as [m0 | c0 s0 D0 rep0 Hst0 Hrep0 | u0 t0 Hst0 Hu0 Hc0
                 | u0 t0 Hst0 Hu0 Hc0 | u0 t0 tm0 Hst0 Hu0 Hc0 | u0 Hst0 Hu0
                 | n0 Hst0 | n0 Hst0 | c0 u0 Hst0 Hu0 | tm0 | Hst0];
  try (destruct Hc0 as (n1 & b1 & ->));
  try (destruct Hu0 as (s1 & D1 & -> & Hsub1 & Hsome1)).

Lemma moves_coordinates inst inst' out :
  moves inst inst' out →
  r inst' = r inst ∧ i inst' = i inst ∧ ballot inst' = ballot inst.
Proof. intros H. by invert_moves H. Qed.

(** X6: no event changes the coordinates or the ballot of an instance:
    after any run that returns, [r], [i] and [ballot] are as before, so the
    instance keeps its [Identifier] and its place in the btree ([Less]). *)
Theorem coordinates_never_change (bits : N)
    (evs : list (epaxos Command * event Command)) inst inst' out :
  exec (run bits evs) inst = Done (inst', out) →
  r inst' = r inst ∧ i inst' = i inst ∧ ballot inst' = ballot inst
  ∧ Identifier inst' = Identifier inst
  ∧ ∀ other, Less inst' other = Less inst other
             ∧ Less other inst' = Less other inst.
Proof.
  intros Hrun.
  assert (r inst' = r inst ∧ i inst' = i inst ∧ ballot inst' = ballot inst)
    as (Hr & Hi & Hb).
  { revert evs inst inst' out Hrun.
    apply (run_moves_ind bits (λ inst inst' _,
             r inst' = r inst ∧ i inst' = i inst ∧ ballot inst' = ballot inst)).
    - done.
    - intros inst inst1 inst2 out1 out2 Hm (-> & -> & ->).
      by apply (moves_coordinates inst inst1 out1). }
  unfold Identifier, Less. by rewrite Hr, Hi, Hb.
Qed.

Lemma moves_deps inst inst' out :
  moves inst inst' out →
  (state inst = none → members (deps inst) = ∅) →
  members (deps inst) ⊆ members (deps inst')
  ∧ (state inst' = none → members (deps inst') = ∅).
Proof.
  intros H Hnone. invert_moves H;
    cbn [deps state set_deps set_seq set_cmd set_state set_slowPathTimer
         set_preAcceptReplies set_differentReplies set_acceptReplies cancelled]
      in *;
    try (split; [done | by intros ?]); try done.
  - split; [| done]. rewrite (Hnone Hst0). apply empty_subseteq.
  - split; [done |]. intros Hn. by rewrite Hst0 in Hn.
Qed.

(** X7: an instance never loses a dependency: from an instance that has no
    dependencies while it is in state [none] (as [newInstance] makes it),
    after any run that returns the dependencies it had are still there. *)
Theorem deps_never_shrink (bits : N)
    (evs : list (epaxos Command * event Command)) inst inst' out :
  (state inst = none → members (deps inst) = ∅) →
  exec (run bits evs) inst = Done (inst', out) →
  members (deps inst) ⊆ members (deps inst').
Proof.
  intros Hnone Hrun.
  enough (members (deps inst) ⊆ members (deps inst')
          ∧ (state inst' = none → members (deps inst') = ∅)) as [? _]; [done |].
  revert evs inst inst' out Hrun Hnone.
  apply (run_moves_ind bits (λ inst inst' _,
           (state inst = none → members (deps inst) = ∅) →
           members (deps inst) ⊆ members (deps inst')
           ∧ (state inst' = none → members (deps inst') = ∅))).
  - done.
  - intros inst inst1 inst2 out1 out2 Hm IH Hnone.
    destruct (moves_deps inst inst1 out1 Hm Hnone) as [Hsub Hnone1].
    destruct (IH Hnone1) as [Hsub2 Hnone2].
    split; [by etrans | done].
Qed.



Lemma moves_handOff inst inst' out :
  moves inst inst' out →
  handOffs out
  = (if bool_decide (state inst ≠ committed ∧ state inst' = committed)
     then 1 else 0)%nat
  ∧ (commitBroadcasts out ≤ handOffs out)%nat
  ∧ (state inst = committed → state inst' = committed).
Proof.
  intros H. invert_moves H;
    cbn [deps state set_deps set_seq set_cmd set_state set_slowPathTimer
         set_preAcceptReplies set_differentReplies set_acceptReplies cancelled]
      in *;
    (split; [| split; [vm_compute; lia | try congruence]]);
    try (case_bool_decide as Hb; [| vm_compute; try reflexivity];
         try (exfalso; destruct Hb; congruence);
         try (exfalso; apply Hb; split; congruence);
         try reflexivity).
  all: try (destruct Hst0 as [Hst0 | Hst0]; try destruct Hst0 as [Hst0 | Hst0];
            congruence).
  all: try (exfalso; apply Hb; split; [| done];
            destruct Hst0 as [Hst0 | Hst0]; try destruct Hst0 as [Hst0 | Hst0];
            congruence).
Qed.

(** X9: an instance is handed to the executor exactly when it becomes
    [committed], and so at most once: in any run that returns, the number
    of [prepareToExecute] calls is 1 if the run takes the instance from
    another state to [committed] and 0 otherwise; Commit is broadcast at
    most as often. *)
Theorem handed_to_executor_once (bits : N)
    (evs : list (epaxos Command * event Command)) inst inst' out :
  exec (run bits evs) inst = Done (inst', out) →
  handOffs out
  = (if bool_decide (state inst ≠ committed ∧ state inst' = committed)
     then 1 else 0)%nat
  ∧ (commitBroadcasts out ≤ handOffs out)%nat.
Proof.
  intros Hrun.
  enough (handOffs out
          = (if bool_decide (state inst ≠ committed ∧ state inst' = committed)
             then 1 else 0)%nat
          ∧ (commitBroadcasts out ≤ handOffs out)%nat
          ∧ (state inst = committed → state inst' = committed)) by tauto.
  revert evs inst inst' out Hrun.
  apply (run_moves_ind bits (λ inst inst' out,
           handOffs out
           = (if bool_decide (state inst ≠ committed ∧ state inst' = committed)
              then 1 else 0)%nat
           ∧ (commitBroadcasts out ≤ handOffs out)%nat
           ∧ (state inst = committed → state inst' = committed))).
  - intros inst. split; [| split; [done | done]].
    case_bool_decide as Hb; [by destruct Hb | done].
  - intros inst inst1 inst2 out1 out2 Hm (IH1 & IH2 & IH3).
    destruct (moves_handOff inst inst1 out1 Hm) as (H1 & H2 & H3).
    unfold handOffs, commitBroadcasts in *.
    rewrite !filter_app, !length_app, IH1, H1.
    split; [| split; [| by auto]].
    + repeat case_bool_decide; try lia; exfalso; tauto.
    + unfold handOffs, commitBroadcasts in *. rewrite IH1, H1 in *. lia.
Qed.

End RunInvariants.

(** The slow round on the leader as an instance of the run invariants. *)
Lemma coordinates_never_change_witness :
  ∃ inst' out,
    exec (run 64 Examples.slowRound) Examples.leader = Done (inst', out)
    ∧ r inst' = r Examples.leader ∧ i inst' = i Examples.leader
    ∧ ballot inst' = ballot Examples.leader
    ∧ Identifier inst' = Identifier Examples.leader
    ∧ ∀ other, Less inst' other = Less Examples.leader other
               ∧ Less other inst' = Less other Examples.leader.
Proof.
  destruct (exec (run 64 Examples.slowRound) Examples.leader)
    as [[inst' out] | e] eqn:Hrun; [| by vm_compute in Hrun].
  exists inst', out. split; [reflexivity |].
  exact (coordinates_never_change 64 Examples.slowRound Examples.leader
           inst' out Hrun).
Defined.

Lemma deps_never_shrink_witness :
  ∃ inst' out,
    exec (run 64 (Examples.slowRoundWith [Examples.dep 0 1; Examples.dep 2 2]))
         (set_deps (Some {[Examples.dep 2 2]}) Examples.leader)
    = Done (inst', out)
    ∧ members (deps (set_deps (Some {[Examples.dep 2 2]}) Examples.leader))
      ⊆ members (deps inst').
Proof.
  destruct (exec (run 64 (Examples.slowRoundWith
                            [Examples.dep 0 1; Examples.dep 2 2]))
              (set_deps (Some {[Examples.dep 2 2]}) Examples.leader))
    as [[inst' out] | e] eqn:Hrun; [| by vm_compute in Hrun].
  exists inst', out. split; [reflexivity |].
  refine (deps_never_shrink 64
            (Examples.slowRoundWith [Examples.dep 0 1; Examples.dep 2 2])
            (set_deps (Some {[Examples.dep 2 2]}) Examples.leader)
            inst' out _ Hrun).
  intros Hst. discriminate Hst.
Defined.

(** In that run the leader holds (2, 2), merges (0, 1) from the reply and
    ends with both. *)
Example deps_kept_and_merged :
  ∃ inst' out,
    exec (run 64 (Examples.slowRoundWith [Examples.dep 0 1; Examples.dep 2 2]))
         (set_deps (Some {[Examples.dep 2 2]}) Examples.leader)
    = Done (inst', out)
    ∧ depSlice (set_deps (Some {[Examples.dep 2 2]}) Examples.leader)
      = [Examples.dep 2 2]
    ∧ depSlice inst' = [Examples.dep 0 1; Examples.dep 2 2].
Proof.
  destruct (exec (run 64 (Examples.slowRoundWith
                            [Examples.dep 0 1; Examples.dep 2 2]))
              (set_deps (Some {[Examples.dep 2 2]}) Examples.leader))
    as [[inst' out] | e] eqn:Hrun; [| by vm_compute in Hrun].
  exists inst', out. split; [reflexivity |]. split; [reflexivity |].
  vm_compute in Hrun. injection Hrun as <- _. reflexivity.
Qed.


Lemma handed_to_executor_once_witness :
  ∃ inst' out,
    exec (run 64 Examples.slowRound) Examples.leader = Done (inst', out)
    ∧ handOffs out
      = (if bool_decide (state Examples.leader ≠ committed
                         ∧ state inst' = committed)
         then 1 else 0)%nat
    ∧ (commitBroadcasts out ≤ handOffs out)%nat.
Proof.
  destruct (exec (run 64 Examples.slowRound) Examples.leader)
    as [[inst' out] | e] eqn:Hrun; [| by vm_compute in Hrun].
  exists inst', out. split; [reflexivity |].
  exact (handed_to_executor_once 64 Examples.slowRound Examples.leader
           inst' out Hrun).
Defined.

(** ** Merging a reply that extends what the instance has *)

Section MergeSuperset.
Context {Command Ballot : Type}.
Implicit Types (inst u t : instance Command Ballot) (p : epaxos Command).

Lemma depSliceFromMap_len (m : depsMap) :
  lenSlice (depSliceFromMap m) = lenMap m.
Proof.
  unfold lenSlice, lenMap, depSliceFromMap. rewrite merge_sort_Permutation.
  destruct m as [D |]; [done |]. rewrite members_None. by rewrite elements_empty.
Qed.

(** For a list without repetition that names at least what the map holds,
    the lengths agree exactly when the sets agree. *)
Lemma same_length_iff_equal (ds : list pb.Dependency) (D : gset pb.Dependency) :
  NoDup ds → D ⊆ list_to_set ds →
  lenSlice ds = Z.of_nat (size D) ↔ D = list_to_set ds.
Proof.
  intros Hnd Hsub. unfold lenSlice.
  pose proof (size_list_to_set (C := gset pb.Dependency) ds Hnd) as Hsz.
  split.
  - intros Hlen. apply set_subseteq_size_eq; [done | lia].
  - intros ->. lia.
Qed.

Lemma updateInstanceState_superset inst D newSeq newDeps :
  deps inst = Some D → NoDup newDeps → D ⊆ list_to_set newDeps →
  seq inst ≤ newSeq →
  updateInstanceState newSeq newDeps inst
  = Done (negb (bool_decide (seq inst = newSeq)
                && bool_decide (D = list_to_set newDeps)),
          set_deps (Some (D ∪ list_to_set newDeps))
                   (set_seq (pb.MaxSeqNum (seq inst) newSeq) inst),
          []).
Proof.
  intros HD Hnd Hsub Hseq.
  rewrite (updateInstanceState_initialised inst D newSeq newDeps HD). cbv zeta.
  assert (pb.MaxSeqNum (seq inst) newSeq = newSeq) as ->.
  { unfold pb.MaxSeqNum. destruct (Z.ltb_spec (seq inst) newSeq); lia. }
  rewrite (subseteq_union_1_L _ _ Hsub).
  pose proof (same_length_iff_equal newDeps D Hnd Hsub) as Hiff.
  destruct (bool_decide_reflect (lenSlice newDeps = Z.of_nat (size D))) as [Hl | Hl].
  - apply Hiff in Hl as Heq. rewrite (bool_decide_eq_true_2 _ Heq).
    by rewrite <- Heq.
  - rewrite (bool_decide_eq_false_2 (D = list_to_set newDeps)) by tauto.
    by rewrite (comm_L (∪)), (subseteq_union_1_L _ _ Hsub).
Qed.

(** X10: what the comments of [updateInstanceState] rely on. When the new
    sequence number is not below the instance's and the new dependencies,
    listed without repetition, include the instance's, the call returns,
    leaves the larger sequence number and the union of the dependencies,
    and answers [true] exactly when one of the two changed. *)
Theorem updateInstanceState_max_and_union inst D newSeq newDeps :
  deps inst = Some D → NoDup newDeps → D ⊆ list_to_set newDeps →
  seq inst ≤ newSeq →
  ∃ changed inst',
    updateInstanceState newSeq newDeps inst = Done (changed, inst', [])
    ∧ seq inst' = Z.max (seq inst) newSeq
    ∧ deps inst' = Some (D ∪ list_to_set newDeps)
    ∧ (changed = true ↔ seq inst' ≠ seq inst ∨ deps inst' ≠ deps inst).
Proof.
  intros HD Hnd Hsub Hseq. eexists _, _.
  split; [by apply updateInstanceState_superset |].
  cbn [seq deps set_deps set_seq]. rewrite MaxSeqNum_max, HD.
  split; [done |]. split; [done |].
  rewrite (subseteq_union_1_L _ _ Hsub), negb_true_iff, andb_false_iff,
    !bool_decide_eq_false.
  split; (intros [H | H]; [left; lia | right; congruence]).
Qed.

End MergeSuperset.

Lemma updateInstanceState_max_and_union_witness :
  ∃ changed inst',
    updateInstanceState 6 [Examples.dep 0 1; Examples.dep 2 2]
      Examples.committedInst
    = Done (changed, inst', [])
    ∧ seq inst' = Z.max (seq Examples.committedInst) 6
    ∧ deps inst'
      = Some ({[Examples.dep 0 1]} ∪ list_to_set [Examples.dep 0 1; Examples.dep 2 2])
    ∧ (changed = true ↔
       seq inst' ≠ seq Examples.committedInst
       ∨ deps inst' ≠ deps Examples.committedInst).
Proof.
  apply (updateInstanceState_max_and_union Examples.committedInst
           {[Examples.dep 0 1]} 6 [Examples.dep 0 1; Examples.dep 2 2]).
  - reflexivity.
  - apply (bool_decide_unpack _). by vm_compute.
  - apply (bool_decide_unpack _). by vm_compute.
  - by vm_compute.
Defined.

(** ** One PreAccept exchange between the leader and a replica *)

Section PreAcceptExchange.
Context {Command Ballot : Type}.
Implicit Types (inst ld fl t : instance Command Ballot) (p : epaxos Command).

Lemma transitionToPreAccept_run inst :
  state inst = none →
  transitionToPreAccept inst
  = Done (tt, set_state preAccepted inst,
          [Broadcast (pb.MsgPreAccept (instanceStateWithCommand inst))]).
Proof.
  intros Hst. unfold transitionToPreAccept.
  assert (state inst ∈ [none]) as Hin by (rewrite Hst; apply list_elem_of_here).
  rewrite (bind_Done _ _ _ _ _ _ (assertState_holds _ inst Hin)).
  by rewrite bind_modify.
Qed.

Lemma transitionToPreAccept_panics inst :
  state inst ≠ none →
  transitionToPreAccept inst = Panicked (UnexpectedState (state inst) [none]).
Proof.
  intros Hst. unfold transitionToPreAccept. apply bind_Panicked.
  apply assertState_fails. by rewrite list_elem_of_singleton.
Qed.

(** In [preAccepted], what follows the tally returns and leaves the
    command, the sequence number, the dependencies and the flag of
    different replies as tallied. *)
Lemma onEitherPreAcceptReply_keeps p t :
  state t = preAccepted →
  ∃ inst' out,
    exec (onEitherPreAcceptReply p) t = Done (inst', out)
    ∧ cmd inst' = cmd t ∧ seq inst' = seq t ∧ deps inst' = deps t
    ∧ differentReplies inst' = differentReplies t.
Proof.
  intros Hst. rewrite (onEitherPreAcceptReply_run p t Hst).
  destruct (negb (differentReplies t) && fastQuorum p (replies t));
    [| destruct (quorum p (replies t));
       [destruct (differentReplies t) eqn:Hdiff;
        [| destruct (isSet (slowPathTimer t))] |]];
    (eexists _, _; split; [reflexivity |]; by repeat split).
Qed.

(** X11: one PreAccept exchange leaves the leader and the replica with the
    same sequence number and the same dependencies. The leader, with
    dependencies [D], moves to [preAccepted] and broadcasts PreAccept; a
    replica in state [none] whose conflicts are [(maxLocalSeq, localDeps)]
    handles it and replies; the leader handles the reply. Then the replica
    has the leader's command, both have seq = max(seq, maxLocalSeq + 1) and
    deps = D ∪ localDeps, and the leader has noted a different reply
    exactly when the reply was not PreAcceptOK. *)
Theorem preAccept_exchange_agrees (bits : N) (pLeader pReplica : epaxos Command)
    ld fl D maxLocalSeq localDeps :
  state ld = none → deps ld = Some D → state fl = none →
  seqAndDepsForCommand pReplica (cmd ld) = (maxLocalSeq, localDeps) →
  ∃ ld1 pa fl' rep ld2 out,
    transitionToPreAccept ld = Done (tt, ld1, [Broadcast (pb.MsgPreAccept pa)])
    ∧ exec (onPreAccept bits pReplica pa) fl = Done (fl', [Reply rep])
    ∧ exec (onMessage bits pLeader rep) ld1 = Done (ld2, out)
    ∧ cmd fl' = cmd ld
    ∧ seq fl' = Z.max (seq ld) (wrapSeq bits (maxLocalSeq + 1))
    ∧ deps fl' = Some (D ∪ localDeps)
    ∧ seq ld2 = seq fl' ∧ deps ld2 = deps fl' ∧ cmd ld2 = cmd ld
    ∧ (rep = pb.MsgPreAcceptOK → differentReplies ld2 = differentReplies ld)
    ∧ (rep ≠ pb.MsgPreAcceptOK → differentReplies ld2 = true).
Proof.
  intros Hld HD Hfl Hsd.
  set (pa := instanceStateWithCommand ld).
  set (ld1 := set_state preAccepted ld).
  assert (list_to_set (pb.Deps pa) = D) as Hpa.
  { unfold pa. cbn [pb.Deps instanceStateWithCommand instanceStateWithoutCommand].
    unfold depSlice. by rewrite depSliceFromMap_members, HD. }
  assert (lenSlice (pb.Deps pa) = Z.of_nat (size D)) as Hlen.
  { unfold pa. cbn [pb.Deps instanceStateWithCommand instanceStateWithoutCommand].
    unfold depSlice. by rewrite depSliceFromMap_len, HD. }
  pose proof (onPreAccept_none bits pReplica pa fl (cmd ld) maxLocalSeq localDeps
                Hfl eq_refl Hsd) as Hrep.
  cbv zeta in Hrep. rewrite Hpa, Hlen in Hrep.
  change (pb.SeqNum_ pa) with (seq ld) in Hrep.
  set (seq' := pb.MaxSeqNum (seq ld) (wrapSeq bits (maxLocalSeq + 1))) in *.
  assert (seq' = Z.max (seq ld) (wrapSeq bits (maxLocalSeq + 1))) as Hseq'
    by apply MaxSeqNum_max.
  assert (D ⊆ localDeps ∪ D) as Hsub by apply union_subseteq_r.
  assert (state ld1 = preAccepted) as Hst1 by done.
  assert (deps ld1 = Some D) as HD1 by done.
  exists ld1, pa.
  destruct (bool_decide_reflect (seq' = seq ld)) as [Hs | Hs];
    [destruct (bool_decide_reflect
                 (lenMap (Some (localDeps ∪ D)) = Z.of_nat (size D))) as [Hl | Hl] |];
    cbn [andb] in Hrep.
  - (* PreAcceptOK *)
    assert (D = localDeps ∪ D) as HeqD.
    { apply set_subseteq_size_eq; [done |]. cbn [lenMap] in Hl. lia. }
    set (t := set_preAcceptReplies (wrapInt (preAcceptReplies ld1 + 1)) ld1).
    destruct (onEitherPreAcceptReply_keeps pLeader t Hst1)
      as (ld2 & out & Hrun & Hc & Hsq & Hdp & Hdf).
    eexists _, _, ld2, out.
    split; [by apply transitionToPreAccept_run |]. split; [exact Hrep |].
    split; [by rewrite (tally_run_exec bits pLeader pb.MsgPreAcceptOK ld1 t Hst1 eq_refl eq_refl) |].
    cbn [cmd seq deps set_deps set_seq set_cmd set_state].
    rewrite Hc, Hsq, Hdp, Hdf, (comm_L (∪) D localDeps), <- HeqD.
    repeat split; try done; lia.
  - (* PreAcceptReply: the dependencies differ *)
    set (ds := depSliceFromMap (Some (localDeps ∪ D))) in *.
    assert (list_to_set ds = localDeps ∪ D) as Hds
      by apply depSliceFromMap_members.
    pose proof (updateInstanceState_superset ld1 D seq' ds HD1
                  (depSliceFromMap_NoDup _)) as Hup.
    rewrite Hds in Hup. specialize (Hup Hsub ltac:(cbn; lia)).
    set (u := set_deps _ _) in Hup. set (ch := negb _) in Hup.
    set (t := set_preAcceptReplies (wrapInt (preAcceptReplies u + 1))
                (set_differentReplies (differentReplies u || ch) u)).
    assert (tally (pb.MsgPreAcceptReply
                     {| pb.UpdatedSeqNum := seq'; pb.UpdatedDeps := ds |}) ld1
            = Done (tt, t, [])) as Ht.
    { cbn [tally pb.UpdatedSeqNum pb.UpdatedDeps].
      rewrite (bind_Done _ _ _ _ _ _ Hup). by rewrite !bind_modify. }
    destruct (onEitherPreAcceptReply_keeps pLeader t Hst1)
      as (ld2 & out & Hrun & Hc & Hsq & Hdp & Hdf).
    eexists _, _, ld2, out.
    split; [by apply transitionToPreAccept_run |]. split; [exact Hrep |].
    split; [by rewrite (tally_run_exec bits pLeader (pb.MsgPreAcceptReply _) ld1 t Hst1 eq_refl Ht) |].
    cbn [cmd seq deps set_deps set_seq set_cmd set_state].
    rewrite Hc, Hsq, Hdp, Hdf.
    cbn [cmd seq deps differentReplies set_deps set_seq set_cmd set_state
         set_preAcceptReplies set_differentReplies t u ld1].
    assert (ch = true) as ->.
    { subst ch. rewrite negb_true_iff, andb_false_iff, !bool_decide_eq_false.
      right. intros HeqD. apply Hl. cbn [lenMap]. by rewrite <- HeqD. }
    rewrite orb_true_r, (comm_L (∪) D localDeps), (subseteq_union_1_L _ _ Hsub).
    assert (pb.MaxSeqNum (seq ld) seq' = seq') as ->.
    { rewrite MaxSeqNum_max. lia. }
    repeat split; try done; lia.
  - (* PreAcceptReply: the sequence numbers differ *)
    set (ds := depSliceFromMap (Some (localDeps ∪ D))) in *.
    assert (list_to_set ds = localDeps ∪ D) as Hds
      by apply depSliceFromMap_members.
    pose proof (updateInstanceState_superset ld1 D seq' ds HD1
                  (depSliceFromMap_NoDup _)) as Hup.
    rewrite Hds in Hup. specialize (Hup Hsub ltac:(cbn; lia)).
    set (u := set_deps _ _) in Hup. set (ch := negb _) in Hup.
    set (t := set_preAcceptReplies (wrapInt (preAcceptReplies u + 1))
                (set_differentReplies (differentReplies u || ch) u)).
    assert (tally (pb.MsgPreAcceptReply
                     {| pb.UpdatedSeqNum := seq'; pb.UpdatedDeps := ds |}) ld1
            = Done (tt, t, [])) as Ht.
    { cbn [tally pb.UpdatedSeqNum pb.UpdatedDeps].
      rewrite (bind_Done _ _ _ _ _ _ Hup). by rewrite !bind_modify. }
    destruct (onEitherPreAcceptReply_keeps pLeader t Hst1)
      as (ld2 & out & Hrun & Hc & Hsq & Hdp & Hdf).
    eexists _, _, ld2, out.
    split; [by apply transitionToPreAccept_run |]. split; [exact Hrep |].
    split; [by rewrite (tally_run_exec bits pLeader (pb.MsgPreAcceptReply _) ld1 t Hst1 eq_refl Ht) |].
    cbn [cmd seq deps set_deps set_seq set_cmd set_state].
    rewrite Hc, Hsq, Hdp, Hdf.
    cbn [cmd seq deps differentReplies set_deps set_seq set_cmd set_state
         set_preAcceptReplies set_differentReplies t u ld1].
    assert (ch = true) as ->.
    { subst ch. rewrite negb_true_iff, andb_false_iff, !bool_decide_eq_false.
      left. cbn [seq set_state ld1]. congruence. }
    rewrite orb_true_r, (comm_L (∪) D localDeps), (subseteq_union_1_L _ _ Hsub).
    assert (pb.MaxSeqNum (seq ld) seq' = seq') as ->.
    { rewrite MaxSeqNum_max. lia. }
    repeat split; try done; lia.
Qed.

End PreAcceptExchange.

Lemma preAccept_exchange_agrees_witness :
  ∃ ld1 pa fl' rep ld2 out,
    transitionToPreAccept Examples.proposal
    = Done (tt, ld1, [Broadcast (pb.MsgPreAccept pa)])
    ∧ exec (onPreAccept 64 Examples.replica3 pa) Examples.fresh
      = Done (fl', [Reply rep])
    ∧ exec (onMessage 64 Examples.quiet3 rep) ld1 = Done (ld2, out)
    ∧ cmd fl' = cmd Examples.proposal
    ∧ seq fl' = Z.max (seq Examples.proposal) (wrapSeq 64 (4 + 1))
    ∧ deps fl' = Some ({[Examples.dep 2 2]} ∪ {[Examples.dep 0 1]})
    ∧ seq ld2 = seq fl' ∧ deps ld2 = deps fl' ∧ cmd ld2 = cmd Examples.proposal
    ∧ (rep = pb.MsgPreAcceptOK →
       differentReplies ld2 = differentReplies Examples.proposal)
    ∧ (rep ≠ pb.MsgPreAcceptOK → differentReplies ld2 = true).
Proof.
  apply (preAccept_exchange_agrees 64 Examples.quiet3 Examples.replica3
           Examples.proposal Examples.fresh {[Examples.dep 2 2]} 4
           {[Examples.dep 0 1]}); reflexivity.
Defined.

(** ** The fast path commits what the leader proposed *)

Section FastPath.
Context {Command Ballot : Type}.
Implicit Types (inst u t : instance Command Ballot) (p : epaxos Command).
Implicit Types (m : pb.Message Command).

Lemma instanceStateWithCommand_ext inst t :
  cmd t = cmd inst → seq t = seq inst → deps t = deps inst →
  instanceStateWithCommand t = instanceStateWithCommand inst.
Proof.
  intros Hc Hs Hd.
  unfold instanceStateWithCommand, instanceStateWithoutCommand, depSlice.
  by rewrite Hc, Hs, Hd.
Qed.

(** When [updateInstanceState] returns false it has left the instance as it
    was. *)
Lemma updateInstanceState_unchanged inst newSeq newDeps u out :
  updateInstanceState newSeq newDeps inst = Done (false, u, out) → u = inst.
Proof.
  destruct (deps inst) as [D |] eqn:HD.
  - rewrite (updateInstanceState_initialised inst D newSeq newDeps HD). cbv zeta.
    destruct (bool_decide_reflect (seq inst = newSeq)) as [<- | Hne]; [| done].
    destruct (bool_decide (lenSlice newDeps = Z.of_nat (size D))); [| done].
    intros [= <- <-]. by rewrite set_seq_same, <- HD, set_deps_same.
  - destruct newDeps as [| d ds]; [| by rewrite updateInstanceState_nil].
    rewrite (updateInstanceState_nil_empty inst newSeq HD).
    destruct (bool_decide_reflect (seq inst = newSeq)) as [<- | Hne]; [| done].
    intros [= <- <-]. by rewrite set_seq_same.
Qed.

(** The tally of a reply never clears the flag of different replies, and
    while the flag is clear the tally has changed only the count. *)
Lemma tally_keeps_proposal m inst t out :
  tally m inst = Done (tt, t, out) →
  (differentReplies inst = true → differentReplies t = true)
  ∧ (differentReplies t = false →
     cmd t = cmd inst ∧ seq t = seq inst ∧ deps t = deps inst).
Proof.
  destruct m as [| | paReply | | |]; cbn [tally];
    try (by intros [= <- <-]).
  intros H. apply bind_Done_inv in H
    as (changed & u & out1 & out2 & Hup & Hrest & ->).
  rewrite !bind_modify in Hrest. injection Hrest as <- <-.
  cbn [differentReplies cmd seq deps set_preAcceptReplies set_differentReplies].
  pose proof (updateInstanceState_frame _ _ _ _ _ _ Hup) as [-> [D' Hu]].
  split.
  - intros Hd. rewrite Hu. cbn [differentReplies set_deps set_seq].
    by rewrite Hd.
  - intros [Hd ->]%orb_false_elim.
    by rewrite (updateInstanceState_unchanged _ _ _ _ _ Hup).
Qed.

(** One reply, in any state. *)
Lemma answer_keeps_proposal (bits : N) p m inst inst' out :
  isPreAcceptAnswer m = true →
  exec (onMessage bits p m) inst = Done (inst', out) →
  differentReplies inst' = false →
  differentReplies inst = false
  ∧ cmd inst' = cmd inst ∧ seq inst' = seq inst ∧ deps inst' = deps inst
  ∧ ∀ e, e ∈ out →
         e = Broadcast (pb.MsgCommit (instanceStateWithCommand inst))
         ∨ e = PrepareToExecute ∨ ∃ st m', e = Debugf st m'.
Proof.
  intros Hm H Hd'. destruct (decide (state inst = preAccepted)) as [Hst | Hst].
  - apply exec_Done_inv in H.
    rewrite (onPreAcceptAnswer_tally bits p m inst Hst Hm) in H.
    apply bind_Done_inv in H as ([] & t & out1 & out2 & Ht & Heither & ->).
    pose proof (tally_frame _ _ _ _ Ht) as (Hstt & _ & ->). rewrite Hst in Hstt.
    apply tally_keeps_proposal in Ht as [Hmono Hkeep].
    apply exec_Done in Heither.
    assert (differentReplies t = false) as Hdt.
    { destruct (onEitherPreAcceptReply_keeps p t Hstt)
        as (inst2 & out3 & Hr & _ & _ & _ & Hdf).
      rewrite Heither in Hr. injection Hr as <- <-. by rewrite <- Hdf. }
    rewrite (onEitherPreAcceptReply_run p t Hstt) in Heither.
    destruct (Hkeep Hdt) as (Hc & Hs & HD).
    split; [by destruct (differentReplies inst); [rewrite Hmono in Hdt |] |].
    rewrite Hdt in Heither. cbn [negb andb app] in Heither.
    destruct (fastQuorum p (replies t)).
    + injection Heither as <- <-.
      rewrite (instanceStateWithCommand_ext inst t Hc Hs HD).
      repeat split; try done.
      intros e [-> | [-> | []%elem_of_nil]%elem_of_cons]%elem_of_cons; auto.
    + destruct (quorum p (replies t)); injection Heither as <- <-;
        [destruct (isSet (slowPathTimer t)) |];
        (repeat split; try done; by intros e []%elem_of_nil).
  - rewrite (onPreAcceptAnswer_ignored bits p m inst Hm Hst) in H.
    injection H as <- <-. repeat split; try done.
    intros e [-> | []%elem_of_nil]%elem_of_cons. right. right. by eexists _, _.
Qed.

(** X12: the fast path commits what the leader proposed. Whatever
    PreAcceptOK and PreAcceptReply messages are delivered, in any state, as
    long as the leader has noted no different reply at the end, it had
    noted none before, its command, sequence number and dependencies are
    those it started with, it has broadcast no Accept, and every Commit it
    has broadcast carries the command, sequence number and dependencies it
    started with. *)
Theorem fast_path_commits_the_proposal (bits : N)
    (msgs : list (epaxos Command * pb.Message Command)) inst inst' out :
  Forall (λ pm, isPreAcceptAnswer pm.2 = true) msgs →
  exec (run bits (deliveries msgs)) inst = Done (inst', out) →
  differentReplies inst' = false →
  differentReplies inst = false
  ∧ cmd inst' = cmd inst ∧ seq inst' = seq inst ∧ deps inst' = deps inst
  ∧ ∀ e, e ∈ out →
         e = Broadcast (pb.MsgCommit (instanceStateWithCommand inst))
         ∨ e = PrepareToExecute ∨ ∃ st m', e = Debugf st m'.
Proof.
  intros Hmsgs. revert inst out.
  induction Hmsgs as [| [p m] msgs Hm _ IH]; intros inst out Hrun Hd';
    cbn [deliveries map fst snd] in Hrun.
  - apply exec_run_nil in Hrun as [-> ->].
    repeat split; try done. by intros e []%elem_of_nil.
  - apply exec_run_cons_inv in Hrun
      as (inst1 & out1 & out2 & Hstep & Hrun & ->).
    destruct (IH inst1 out2 Hrun Hd') as (Hd1 & Hc1 & Hs1 & HD1 & Hout2).
    destruct (answer_keeps_proposal bits p m inst inst1 out1 Hm Hstep Hd1)
      as (Hd & Hc & Hs & HD & Hout1).
    split; [done |]. split; [congruence |]. split; [congruence |].
    split; [congruence |].
    intros e [He | He]%elem_of_app; [by apply Hout1 |].
    rewrite <- (instanceStateWithCommand_ext inst inst1 Hc Hs HD).
    by apply Hout2.
Qed.

End FastPath.

Lemma fast_path_commits_the_proposal_witness :
  ∃ inst' out,
    exec (run 64 (deliveries [(Examples.quiet3, pb.MsgPreAcceptOK);
                              (Examples.quiet3, pb.MsgPreAcceptOK);
                              (Examples.quiet3, pb.MsgPreAcceptOK)]))
         Examples.leader
    = Done (inst', out)
    ∧ state inst' = committed
    ∧ differentReplies Examples.leader = false
    ∧ cmd inst' = cmd Examples.leader ∧ seq inst' = seq Examples.leader
    ∧ deps inst' = deps Examples.leader
    ∧ ∀ e, e ∈ out →
           e = Broadcast (pb.MsgCommit (instanceStateWithCommand Examples.leader))
           ∨ e = PrepareToExecute ∨ ∃ st m', e = Debugf st m'.
Proof.
  destruct (exec (run 64 _) Examples.leader)
    as [[inst' out] | e] eqn:Hrun; [| by vm_compute in Hrun].
  exists inst', out. split; [reflexivity |].
  split; [by vm_compute in Hrun; injection Hrun as <- <- |].
  refine (fast_path_commits_the_proposal 64 _ Examples.leader inst' out _ Hrun _).
  - by repeat constructor.
  - by vm_compute in Hrun; injection Hrun as <- <-.
Defined.

(** ** Which deliveries return and which panic *)

Section Returns.
Context {Command Ballot : Type}.
Implicit Types (inst u t : instance Command Ballot) (p : epaxos Command).
Implicit Types (m : pb.Message Command).

(** [updateInstanceState] panics only by writing to the nil map. *)
Lemma updateInstanceState_panics inst newSeq newDeps e :
  updateInstanceState newSeq newDeps inst = Panicked e →
  e = NilMapWrite ∧ deps inst = None ∧ newDeps ≠ [].
Proof.
  destruct (deps inst) as [D |] eqn:HD.
  - by rewrite (updateInstanceState_initialised inst D newSeq newDeps HD).
  - destruct newDeps as [| d ds].
    + by rewrite (updateInstanceState_nil_empty inst newSeq HD).
    + rewrite (updateInstanceState_nil inst newSeq (d :: ds) HD) by done.
      by intros [= <-].
Qed.

Lemma updateInstanceState_returns inst newSeq newDeps :
  is_Some (deps inst) →
  ∃ changed u,
    updateInstanceState newSeq newDeps inst = Done (changed, u, [])
    ∧ is_Some (deps u).
Proof.
  intros [D HD].
  rewrite (updateInstanceState_initialised inst D newSeq newDeps HD).
  eexists _, _. split; [reflexivity |]. by eexists.
Qed.

(** A step that returns leaves an initialised map initialised. *)
Lemma moves_initialised inst inst' out :
  moves inst inst' out → is_Some (deps inst) → is_Some (deps inst').
Proof.
  intros H Hsome.
  destruct H as [m0 | c0 s0 D0 rep0 Hst0 Hrep0 | u0 t0 Hst0 Hu0 Hc0
                 | u0 t0 Hst0 Hu0 Hc0 | u0 t0 tm0 Hst0 Hu0 Hc0 | u0 Hst0 Hu0
                 | n0 Hst0 | n0 Hst0 | c0 u0 Hst0 Hu0 | tm0 | Hst0];
    try (destruct Hc0 as (n1 & b1 & ->));
    try (destruct Hu0 as (s1 & D1 & -> & Hsub1 & Hsome1));
    cbn [deps set_deps set_seq set_cmd set_state set_slowPathTimer
         set_preAcceptReplies set_differentReplies set_acceptReplies cancelled]
      in *;
    by auto.
Qed.

(** The tally panics only by writing to the nil map. *)
Lemma tally_panics m inst e :
  tally m inst = Panicked e → e = NilMapWrite ∧ deps inst = None.
Proof.
  destruct m as [| | paReply | | |]; cbn [tally]; try done.
  destruct (updateInstanceState (pb.UpdatedSeqNum paReply)
              (pb.UpdatedDeps paReply) inst) as [[[changed u] out] | e'] eqn:Hup.
  - rewrite (bind_Done _ _ _ _ _ _ Hup), !bind_modify.
    by destruct out.
  - rewrite (bind_Panicked _ _ _ _ Hup). intros [= <-].
    by apply updateInstanceState_panics in Hup as (-> & ? & _).
Qed.

(** A handler panics in two ways only: by writing a dependency into the
    nil map, or by dereferencing the command of a message that has none. No
    handler fails a state assertion. *)
Lemma onMessage_panics (bits : N) p m inst e :
  exec (onMessage bits p m) inst = Panicked e →
  (e = NilMapWrite ∧ deps inst = None)
  ∨ (e = NilDereference ∧ ¬ carriesCommand m).
Proof.
  destruct m as [pa | | paReply | a | | c]; cbn [onMessage carriesCommand].
  - destruct (decide (state inst = none)) as [Hst | Hst];
      [| by rewrite onPreAccept_ignored].
    destruct (pb.Command_ pa) as [c |] eqn:Hc.
    + destruct (seqAndDepsForCommand p c) as [maxLocalSeq localDeps] eqn:Hsd.
      by rewrite (onPreAccept_none bits p pa inst c _ _ Hst Hc Hsd).
    + rewrite (onPreAccept_nil_command bits p pa inst Hst Hc).
      intros [= <-]. right. split; [done |]. by intros [? ?].
  - change (exec (onPreAcceptOK p) inst)
      with (exec (onMessage bits p pb.MsgPreAcceptOK) inst).
    destruct (decide (state inst = preAccepted)) as [Hst | Hst];
      [| by rewrite (onPreAcceptAnswer_ignored bits p pb.MsgPreAcceptOK inst
                       eq_refl Hst)].
    rewrite (tally_run_exec bits p pb.MsgPreAcceptOK inst _ Hst eq_refl eq_refl).
    destruct (onEitherPreAcceptReply_keeps p
                (set_preAcceptReplies (wrapInt (preAcceptReplies inst + 1)) inst)
                Hst) as (inst2 & out2 & Hr & _).
    by rewrite Hr.
  - change (exec (onPreAcceptReply p paReply) inst)
      with (exec (onMessage bits p (pb.MsgPreAcceptReply paReply)) inst).
    destruct (decide (state inst = preAccepted)) as [Hst | Hst];
      [| by rewrite (onPreAcceptAnswer_ignored bits p
                       (pb.MsgPreAcceptReply paReply) inst eq_refl Hst)].
    destruct (tally (pb.MsgPreAcceptReply paReply) inst)
      as [[[[] t] out] | e'] eqn:Ht.
    + pose proof (tally_frame _ _ _ _ Ht) as (Hstt & _ & ->).
      rewrite Hst in Hstt.
      rewrite (tally_run_exec bits p (pb.MsgPreAcceptReply paReply) inst t Hst
                 eq_refl Ht).
      destruct (onEitherPreAcceptReply_keeps p t Hstt) as (inst2 & out2 & Hr & _).
      by rewrite Hr.
    + unfold exec.
      rewrite (onPreAcceptAnswer_tally bits p (pb.MsgPreAcceptReply paReply) inst
                 Hst eq_refl).
      rewrite (bind_Panicked _ _ _ _ Ht). intros [= <-]. left.
      by apply tally_panics in Ht.
  - rewrite onAccept_run. destruct (bool_decide _); [| done].
    destruct (updateInstanceState _ _ _) as [[[changed u] out] | e'] eqn:Hup;
      [done |].
    intros [= <-]. left. by apply updateInstanceState_panics in Hup as (-> & ? & _).
  - rewrite onAcceptOK_run. cbv zeta.
    destruct (bool_decide _); [| done]. by destruct (quorum p _).
  - rewrite onCommit_run. destruct (bool_decide _); [| done].
    destruct (pb.Command_ c) as [command |] eqn:Hc.
    + destruct (updateInstanceState _ _ _) as [[[changed u] out] | e'] eqn:Hup;
        [done |].
      intros [= <-]. left.
      by apply updateInstanceState_panics in Hup as (-> & ? & _).
    + intros [= <-]. right. split; [done |]. by intros [? ?].
Qed.

(** A run that panics: one of its steps panicked, after a run that
    returned. *)
Lemma exec_run_Panicked_inv (bits : N) (evs : list (epaxos Command * event Command))
    inst e :
  exec (run bits evs) inst = Panicked e →
  ∃ evs1 pe evs2 inst1 out1,
    evs = evs1 ++ pe :: evs2
    ∧ exec (run bits evs1) inst = Done (inst1, out1)
    ∧ exec (step bits pe) inst1 = Panicked e.
Proof.
  revert inst. induction evs as [| pe evs IH]; intros inst Hrun; [done |].
  destruct (exec (step bits pe) inst) as [[inst1 out1] | e1] eqn:Hstep.
  - rewrite (exec_run_cons bits pe evs inst inst1 out1 Hstep) in Hrun.
    destruct (exec (run bits evs) inst1) as [[inst2 out2] | e2] eqn:Hrest;
      [done |].
    injection Hrun as <-.
    destruct (IH inst1 Hrest) as (evs1 & pe' & evs2 & inst3 & out3 & -> & Hr & Hs).
    exists (pe :: evs1), pe', evs2, inst3, (out1 ++ out3).
    split; [done |]. split; [| done].
    by rewrite (exec_run_cons bits pe evs1 inst inst1 out1 Hstep), Hr.
  - exists [], pe, evs, inst, []. split; [done |]. split; [done |].
    unfold exec in *.
    destruct (step bits pe inst) as [[[[] inst1] out1] | e1'] eqn:Hs; [done |].
    injection Hstep as ->.
    rewrite run_cons, (bind_Panicked _ _ _ _ Hs) in Hrun. by injection Hrun as <-.
Qed.

Lemma run_initialised (bits : N) (evs : list (epaxos Command * event Command))
    inst inst' out :
  exec (run bits evs) inst = Done (inst', out) →
  is_Some (deps inst) → is_Some (deps inst').
Proof.
  revert evs inst inst' out.
  apply (run_moves_ind bits (λ inst inst' _,
           is_Some (deps inst) → is_Some (deps inst'))).
  - done.
  - intros inst inst1 inst2 out1 out2 Hm IH Hsome.
    apply IH. by apply (moves_initialised inst inst1 out1).
Qed.

(** X13: delivering messages never fails a state assertion. A sequence of
    deliveries that panics does so in one of two ways: a dependency is
    written into the nil map, and then the instance started with the nil
    map; or the command of a PreAccept or Commit that carries none is
    dereferenced. (A tick can fail the assertion of
    [transitionToAccept]; a message cannot.) *)
Theorem deliveries_panic_only_on_nil (bits : N)
    (msgs : list (epaxos Command * pb.Message Command)) inst e :
  exec (run bits (deliveries msgs)) inst = Panicked e →
  (e = NilMapWrite ∧ deps inst = None)
  ∨ (e = NilDereference ∧ Exists (λ pm, ¬ carriesCommand pm.2) msgs).
Proof.
  intros (evs1 & pe & evs2 & inst1 & out1 & Hevs & Hrun & Hstep)
    %exec_run_Panicked_inv.
  unfold deliveries in Hevs.
  apply map_eq_app in Hevs as (msgs1 & msgs' & -> & <- & Hevs).
  apply map_eq_cons in Hevs as ([p m] & msgs2 & -> & <- & _).
  unfold step in Hstep. cbn [fst snd] in Hstep.
  apply onMessage_panics in Hstep as [[-> Hnil] | [-> Hcmd]].
  - left. split; [done |].
    destruct (deps inst) as [D |] eqn:HD; [| done].
    pose proof (run_initialised bits _ inst inst1 out1 Hrun) as Hsome.
    rewrite HD, Hnil in Hsome. by destruct Hsome as [? ?]; [eexists |].
  - right. split; [done |]. apply Exists_app. right. by apply Exists_cons_hd.
Qed.

(** One message on an initialised map. *)
Lemma onMessage_returns (bits : N) p m inst :
  is_Some (deps inst) → carriesCommand m →
  ∃ inst' out, exec (onMessage bits p m) inst = Done (inst', out).
Proof.
  intros [D HD] Hm.
  destruct (exec (onMessage bits p m) inst) as [[inst' out] | e] eqn:H;
    [by eexists _, _ |].
  apply onMessage_panics in H as [[_ Hnil] | [_ Hcmd]]; [congruence | done].
Qed.

(** X14: on an instance whose dependency map is initialised, every sequence
    of messages that carry their commands is handled to the end, whatever
    the states, the order and the replicas' answers: no delivery panics,
    and the map is initialised afterwards. *)
Theorem deliveries_return (bits : N)
    (msgs : list (epaxos Command * pb.Message Command)) inst :
  is_Some (deps inst) →
  Forall (λ pm, carriesCommand pm.2) msgs →
  ∃ inst' out,
    exec (run bits (deliveries msgs)) inst = Done (inst', out)
    ∧ is_Some (deps inst').
Proof.
  intros Hsome Hmsgs. revert inst Hsome.
  induction Hmsgs as [| [p m] msgs Hm _ IH]; intros inst Hsome;
    cbn [deliveries map fst snd].
  - by exists inst, [].
  - destruct (onMessage_returns bits p m inst Hsome Hm) as (inst1 & out1 & Hstep).
    assert (is_Some (deps inst1)) as Hsome1.
    { apply (moves_initialised inst inst1 out1); [| done].
      by apply (step_moves bits (p, Deliver m)). }
    destruct (IH inst1 Hsome1) as (inst' & out & Hrun & Hsome').
    exists inst', (out1 ++ out). split; [| done].
    rewrite (exec_run_cons bits (p, Deliver m) _ inst inst1 out1 Hstep).
    unfold deliveries in Hrun. by rewrite Hrun.
Qed.

End Returns.

Lemma deliveries_panic_only_on_nil_witness :
  (NilMapWrite = NilMapWrite ∧ deps Examples.fresh = None)
  ∨ (NilMapWrite = NilDereference
     ∧ Exists (λ pm, ¬ carriesCommand pm.2)
         [(Examples.quiet3, pb.MsgPreAccept Examples.preAccept57);
          (Examples.quiet3, pb.MsgAccept Examples.accept21)]).
Proof.
  apply (deliveries_panic_only_on_nil 64
           [(Examples.quiet3, pb.MsgPreAccept Examples.preAccept57);
            (Examples.quiet3, pb.MsgAccept Examples.accept21)]
           (set_state preAccepted Examples.fresh) NilMapWrite).
  reflexivity.
Defined.

Lemma deliveries_return_witness :
  ∃ inst' out,
    exec (run 64 (deliveries
                    [(Examples.quiet3, pb.MsgPreAcceptReply Examples.replyNew);
                     (Examples.quiet3, pb.MsgAcceptOK);
                     (Examples.replica3, pb.MsgCommit Examples.commit21);
                     (Examples.replica3, pb.MsgPreAccept Examples.preAccept57)]))
         Examples.leader
    = Done (inst', out)
    ∧ is_Some (deps inst').
Proof.
  apply (deliveries_return 64 _ Examples.leader).
  - by eexists.
  - repeat (constructor; [by cbn; eauto |]). constructor.
Defined.

(** ** The Accept and Commit rounds *)

Section Rounds.
Context {Command Ballot : Type}.
Implicit Types (inst ld fl u : instance Command Ballot) (p : epaxos Command).

Lemma depSliceFromMap_empty (m : depsMap) :
  members m = ∅ → depSliceFromMap m = [].
Proof.
  intros Hm. unfold depSliceFromMap. rewrite Hm, elements_empty. reflexivity.
Qed.

(** [updateInstanceState] with a list without repetition that names at
    least what the instance has: the instance ends with the sequence number
    and exactly the dependencies of the list. *)
Lemma updateInstanceState_adopts inst newSeq newDeps :
  NoDup newDeps → members (deps inst) ⊆ list_to_set newDeps →
  (deps inst = None → newDeps = []) →
  ∃ changed D',
    updateInstanceState newSeq newDeps inst
    = Done (changed, set_deps D' (set_seq newSeq inst), [])
    ∧ members D' = list_to_set newDeps.
Proof.
  intros Hnd Hsub Hnil. destruct (deps inst) as [D |] eqn:HD.
  - rewrite members_Some in Hsub.
    rewrite (updateInstanceState_initialised inst D newSeq newDeps HD). cbv zeta.
    eexists _, _. split; [reflexivity |]. rewrite members_Some.
    destruct (bool_decide_reflect (lenSlice newDeps = Z.of_nat (size D)))
      as [Hl | Hl].
    + by apply (same_length_iff_equal newDeps D Hnd Hsub).
    + rewrite (comm_L (∪)). by apply subseteq_union_1_L.
  - rewrite (Hnil eq_refl), (updateInstanceState_nil_empty inst newSeq HD).
    exists (negb (bool_decide (seq inst = newSeq))), None. split; [| done].
    assert (set_deps None (set_seq newSeq inst) = set_seq newSeq inst) as ->;
      [| done].
    rewrite <- HD. exact (set_deps_same (set_seq newSeq inst)).
Qed.

Lemma depSlice_adoptable ld fl :
  members (deps fl) ⊆ members (deps ld) →
  (deps fl = None → members (deps ld) = ∅) →
  NoDup (depSlice ld)
  ∧ members (deps fl) ⊆ list_to_set (depSlice ld)
  ∧ (deps fl = None → depSlice ld = [])
  ∧ list_to_set (depSlice ld) = members (deps ld).
Proof.
  intros Hsub Hnil. unfold depSlice.
  rewrite depSliceFromMap_members.
  split; [apply depSliceFromMap_NoDup |]. split; [done |]. split; [| done].
  intros HD. by apply depSliceFromMap_empty, Hnil.
Qed.

(** X15: the Accept round brings a replica to the leader's sequence number
    and dependencies. The leader in [preAccepted] runs
    [transitionToAccept] and broadcasts Accept; a replica in [none] or
    [preAccepted] whose dependencies are among the leader's (and whose map
    is nil only if the leader has none) handles it: it is then [accepted]
    with the leader's sequence number, also when its own was larger, and
    exactly the leader's dependencies, keeps its command, and replies
    AcceptOK. *)
Theorem accept_round_agrees ld fl :
  state ld = preAccepted →
  state fl = none ∨ state fl = preAccepted →
  members (deps fl) ⊆ members (deps ld) →
  (deps fl = None → members (deps ld) = ∅) →
  ∃ a fl',
    transitionToAccept ld
    = Done (tt, set_state accepted ld, [Broadcast (pb.MsgAccept a)])
    ∧ exec (onAccept a) fl = Done (fl', [Reply pb.MsgAcceptOK])
    ∧ state fl' = accepted ∧ seq fl' = seq ld
    ∧ members (deps fl') = members (deps ld)
    ∧ cmd fl' = cmd fl.
Proof.
  intros Hld Hfl Hsub Hnil.
  destruct (depSlice_adoptable ld fl Hsub Hnil) as (Hnd & Hsub' & Hnil' & Hmem).
  destruct (updateInstanceState_adopts (set_state accepted fl) (seq ld)
              (depSlice ld) Hnd Hsub' Hnil') as (changed & D' & Hup & HD').
  exists (instanceStateWithoutCommand ld), (set_deps D' (set_seq (seq ld)
                                             (set_state accepted fl))).
  split; [by apply transitionToAccept_run |].
  split; [| by rewrite <- Hmem].
  rewrite onAccept_run, bool_decide_eq_true_2 by done.
  cbn [pb.SeqNum_ pb.Deps instanceStateWithoutCommand]. by rewrite Hup.
Qed.

(** X16: the Commit round brings a replica to the leader's command,
    sequence number and dependencies. The leader in [preAccepted] or
    [accepted] runs [transitionToCommit], broadcasts Commit and hands the
    instance to the executor; a replica in [none], [preAccepted] or
    [accepted] whose dependencies are among the leader's (and whose map is
    nil only if the leader has none) handles the Commit: it is then
    [committed] with the leader's command, sequence number and
    dependencies, and hands the instance to its executor. *)
Theorem commit_round_agrees ld fl :
  state ld = preAccepted ∨ state ld = accepted →
  state fl = none ∨ state fl = preAccepted ∨ state fl = accepted →
  members (deps fl) ⊆ members (deps ld) →
  (deps fl = None → members (deps ld) = ∅) →
  ∃ c fl',
    transitionToCommit ld
    = Done (tt, set_state committed ld,
            [Broadcast (pb.MsgCommit c); PrepareToExecute])
    ∧ exec (onCommit c) fl = Done (fl', [PrepareToExecute])
    ∧ state fl' = committed ∧ cmd fl' = cmd ld ∧ seq fl' = seq ld
    ∧ members (deps fl') = members (deps ld).
Proof.
  intros Hld Hfl Hsub Hnil.
  destruct (depSlice_adoptable ld fl Hsub Hnil) as (Hnd & Hsub' & Hnil' & Hmem).
  destruct (updateInstanceState_adopts
              (set_cmd (cmd ld) (set_state committed fl)) (seq ld)
              (depSlice ld) Hnd Hsub' Hnil') as (changed & D' & Hup & HD').
  exists (instanceStateWithCommand ld),
         (set_deps D' (set_seq (seq ld)
                         (set_cmd (cmd ld) (set_state committed fl)))).
  split; [by apply transitionToCommit_run |].
  split; [| by rewrite <- Hmem].
  rewrite onCommit_run, bool_decide_eq_true_2 by done.
  cbn [pb.Command_ pb.SeqNum_ pb.Deps instanceStateWithCommand
       instanceStateWithoutCommand].
  by rewrite Hup.
Qed.

Lemma wrapInt_small (z : Z) : - 2 ^ 63 ≤ z < 2 ^ 63 → wrapInt z = z.
Proof. intros Hz. unfold wrapInt. rewrite Z.mod_small; lia. Qed.

Lemma set_acceptReplies_twice n n' inst :
  set_acceptReplies n (set_acceptReplies n' inst) = set_acceptReplies n inst.
Proof. reflexivity. Qed.

(** X17: the leader commits on the AcceptOK that completes the quorum and
    not before. From an instance in [accepted] that has counted [a]
    replies, if [quorum] rejects the counts a + 2, ..., a + k + 1 (the
    leader included) and accepts a + k + 2, then the first k AcceptOK
    messages only raise the count and emit nothing, and the next one
    commits: Commit is broadcast with the instance's command, sequence
    number and dependencies, and the instance is handed to the executor. *)
Theorem acceptOK_commits_at_quorum (bits : N) p (k : nat) inst :
  state inst = accepted →
  0 ≤ acceptReplies inst →
  acceptReplies inst + Z.of_nat k + 2 < 2 ^ 63 →
  (∀ j : nat, (1 ≤ j ≤ k)%nat →
              quorum p (acceptReplies inst + Z.of_nat j + 1) = false) →
  quorum p (acceptReplies inst + Z.of_nat k + 2) = true →
  exec (run bits (acceptOKs p k)) inst
  = Done (set_acceptReplies (acceptReplies inst + Z.of_nat k) inst, [])
  ∧ exec (run bits (acceptOKs p (S k))) inst
    = Done (set_state committed
              (set_acceptReplies (acceptReplies inst + Z.of_nat k + 1) inst),
            [Broadcast (pb.MsgCommit (instanceStateWithCommand inst));
             PrepareToExecute]).
Proof.
  revert inst. induction k as [| k IH]; intros inst Hst Ha Hmax Hbelow Hq.
  - split.
    + rewrite Z.add_0_r. by destruct inst.
    + rewrite Z.add_0_r in *.
      assert (exec (step bits (p, Deliver pb.MsgAcceptOK)) inst
              = Done (set_state committed
                        (set_acceptReplies (acceptReplies inst + 1) inst),
                      [Broadcast (pb.MsgCommit (instanceStateWithCommand inst));
                       PrepareToExecute])) as Hstep.
      { unfold step. cbn [fst snd onMessage].
        rewrite onAcceptOK_run, bool_decide_eq_true_2 by done. cbv zeta.
        cbn [acceptReplies set_acceptReplies].
        rewrite !wrapInt_small by (rewrite ?wrapInt_small; lia).
        replace (acceptReplies inst + 1 + 1) with (acceptReplies inst + 2) by lia.
        by rewrite Hq. }
      unfold acceptOKs. cbn [replicate].
      rewrite (exec_run_cons bits _ [] inst _ _ Hstep). reflexivity.
  - set (inst1 := set_acceptReplies (acceptReplies inst + 1) inst).
    assert (exec (step bits (p, Deliver pb.MsgAcceptOK)) inst = Done (inst1, []))
      as Hstep.
    { unfold step. cbn [fst snd onMessage].
      rewrite onAcceptOK_run, bool_decide_eq_true_2 by done. cbv zeta.
      cbn [acceptReplies set_acceptReplies].
      rewrite !wrapInt_small by (rewrite ?wrapInt_small; lia).
      specialize (Hbelow 1%nat ltac:(lia)).
      replace (acceptReplies inst + 1 + 1)
        with (acceptReplies inst + Z.of_nat 1 + 1) by lia.
      by rewrite Hbelow. }
    destruct (IH inst1) as [IH1 IH2]; subst inst1;
      cbn [state acceptReplies set_acceptReplies] in *.
    + done.
    + lia.
    + lia.
    + intros j Hj. specialize (Hbelow (S j) ltac:(lia)).
      rewrite <- Hbelow. f_equal. lia.
    + rewrite <- Hq. f_equal. lia.
    + unfold acceptOKs in *. split.
      * cbn [replicate]. rewrite (exec_run_cons bits _ _ inst _ _ Hstep), IH1.
        rewrite set_acceptReplies_twice. cbn [app]. do 3 f_equal. lia.
      * change (replicate (S (S k)) (p, Deliver pb.MsgAcceptOK))
          with ((p, @Deliver Command pb.MsgAcceptOK)
                :: replicate (S k) (p, Deliver pb.MsgAcceptOK)).
        rewrite (exec_run_cons bits _ _ inst _ _ Hstep), IH2.
        rewrite set_acceptReplies_twice. cbn [app]. do 4 f_equal. lia.
Qed.

End Rounds.

Lemma accept_round_agrees_witness :
  ∃ a fl',
    transitionToAccept
      (set_deps (Some {[Examples.dep 0 1; Examples.dep 2 2]}) Examples.leader)
    = Done (tt,
            set_state accepted
              (set_deps (Some {[Examples.dep 0 1; Examples.dep 2 2]})
                 Examples.leader),
            [Broadcast (pb.MsgAccept a)])
    ∧ exec (onAccept a)
           (set_deps (Some {[Examples.dep 0 1]}) (set_seq 9 Examples.fresh))
      = Done (fl', [Reply pb.MsgAcceptOK])
    ∧ state fl' = accepted
    ∧ seq fl'
      = seq (set_deps (Some {[Examples.dep 0 1; Examples.dep 2 2]})
               Examples.leader)
    ∧ members (deps fl')
      = members (deps (set_deps (Some {[Examples.dep 0 1; Examples.dep 2 2]})
                         Examples.leader))
    ∧ cmd fl'
      = cmd (set_deps (Some {[Examples.dep 0 1]}) (set_seq 9 Examples.fresh)).
Proof.
  apply (accept_round_agrees
           (set_deps (Some {[Examples.dep 0 1; Examples.dep 2 2]}) Examples.leader)
           (set_deps (Some {[Examples.dep 0 1]}) (set_seq 9 Examples.fresh))).
  - reflexivity.
  - by left.
  - apply (bool_decide_unpack _). by vm_compute.
  - intros Hnil. discriminate Hnil.
Defined.

Lemma commit_round_agrees_witness :
  ∃ c fl',
    transitionToCommit Examples.leader
    = Done (tt, set_state committed Examples.leader,
            [Broadcast (pb.MsgCommit c); PrepareToExecute])
    ∧ exec (onCommit c) Examples.fresh = Done (fl', [PrepareToExecute])
    ∧ state fl' = committed ∧ cmd fl' = cmd Examples.leader
    ∧ seq fl' = seq Examples.leader
    ∧ members (deps fl') = members (deps Examples.leader).
Proof.
  apply (commit_round_agrees Examples.leader Examples.fresh).
  - by left.
  - by left.
  - apply (bool_decide_unpack _). by vm_compute.
  - intros _. reflexivity.
Defined.

Lemma acceptOK_commits_at_quorum_witness :
  exec (run 64 (acceptOKs (Examples.formulaQuorums 2) 1))
       (set_state accepted Examples.leader)
  = Done (set_acceptReplies
            (acceptReplies (set_state accepted Examples.leader) + Z.of_nat 1)
            (set_state accepted Examples.leader), [])
  ∧ exec (run 64 (acceptOKs (Examples.formulaQuorums 2) 2))
         (set_state accepted Examples.leader)
    = Done (set_state committed
              (set_acceptReplies
                 (acceptReplies (set_state accepted Examples.leader)
                  + Z.of_nat 1 + 1)
                 (set_state accepted Examples.leader)),
            [Broadcast (pb.MsgCommit
                          (instanceStateWithCommand
                             (set_state accepted Examples.leader)));
             PrepareToExecute]).
Proof.
  apply (acceptOK_commits_at_quorum 64 (Examples.formulaQuorums 2) 1
           (set_state accepted Examples.leader)).
  - reflexivity.
  - by vm_compute.
  - by vm_compute.
  - intros j Hj. assert (j = 1%nat) as -> by lia. reflexivity.
  - reflexivity.
Defined.

(** ** The transitions and their source states *)

Section TransitionGuards.
Context {Command Ballot : Type}.
Implicit Types (inst : instance Command Ballot).

Lemma transitionToCommit_panics inst :
  state inst ≠ preAccepted → state inst ≠ accepted →
  transitionToCommit inst
  = Panicked (UnexpectedState (state inst) [preAccepted; accepted]).
Proof.
  intros Hp Ha. unfold transitionToCommit. apply bind_Panicked.
  apply assertState_fails. rewrite !elem_of_cons, elem_of_nil. tauto.
Qed.

(** X18: each transition is taken from its source states and from no
    other. [transitionToPreAccept] returns exactly in [none],
    [transitionToAccept] exactly in [preAccepted], [transitionToCommit]
    exactly in [preAccepted] and [accepted]; elsewhere each panics with the
    state found and the states expected, before anything is changed or
    sent. A transition that returns has set the state and nothing else;
    PreAccept and Commit are broadcast with the command, Accept without
    it; only the commit hands the instance to the executor. *)
Theorem transitions_assert_their_source_states inst :
  transitionToPreAccept inst
  = (if bool_decide (state inst = none)
     then Done (tt, set_state preAccepted inst,
                [Broadcast (pb.MsgPreAccept
                   {| pb.Command_ := Some (cmd inst); pb.SeqNum_ := seq inst;
                      pb.Deps := depSlice inst |})])
     else Panicked (UnexpectedState (state inst) [none]))
  ∧ transitionToAccept inst
    = (if bool_decide (state inst = preAccepted)
       then Done (tt, set_state accepted inst,
                  [Broadcast (pb.MsgAccept
                     {| pb.Command_ := None; pb.SeqNum_ := seq inst;
                        pb.Deps := depSlice inst |})])
       else Panicked (UnexpectedState (state inst) [preAccepted]))
  ∧ transitionToCommit inst
    = (if bool_decide (state inst = preAccepted ∨ state inst = accepted)
       then Done (tt, set_state committed inst,
                  [Broadcast (pb.MsgCommit
                     {| pb.Command_ := Some (cmd inst); pb.SeqNum_ := seq inst;
                        pb.Deps := depSlice inst |});
                   PrepareToExecute])
       else Panicked (UnexpectedState (state inst) [preAccepted; accepted])).
Proof.
  split; [| split]; case_bool_decide as Hst.
  - by apply transitionToPreAccept_run.
  - by apply transitionToPreAccept_panics.
  - by apply transitionToAccept_run.
  - by apply transitionToAccept_panics.
  - by apply transitionToCommit_run.
  - apply transitionToCommit_panics; tauto.
Qed.

End TransitionGuards.

(** ** The slow-path timer along the events an instance receives *)

Section TimerReach.
Context {Command Ballot : Type}.
Implicit Types (inst : instance Command Ballot) (p : epaxos Command).
Implicit Types (m : pb.Message Command) (ev : event Command).

(** A message that is not a reply leaves the timer as it is. *)
Lemma request_keeps_timer (bits : N) p m inst inst' out :
  isReply m = false →
  exec (onMessage bits p m) inst = Done (inst', out) →
  slowPathTimer inst' = slowPathTimer inst.
Proof.
  intros Hm H. destruct m as [pa | | paReply | a | | c]; try done;
    cbn [onMessage] in H.
  - by apply onPreAccept_cases in H as [-> | [_ (c & s & D & ->)]].
  - by apply onAccept_cases in H as [-> | [_ (s & D & ->)]].
  - by apply onCommit_cases in H as [-> | [_ (command & s & D & ->)]].
Qed.

(** On an instance away from its command leader the timer stays unarmed. *)
Lemma step_unarmed (bits : N) (pe : epaxos Command * event Command) inst inst' out :
  atReplica pe.2 = true → isSet (slowPathTimer inst) = false →
  exec (step bits pe) inst = Done (inst', out) →
  isSet (slowPathTimer inst') = false.
Proof.
  destruct pe as [p [m |]]; unfold step; cbn [fst snd atReplica];
    intros Hev Hunset H.
  - rewrite (request_keeps_timer bits p m inst inst' out); [done | | done].
    by apply negb_true_iff.
  - unfold isSet in Hunset.
    apply onTick_cases in H as [-> | [(n & Hrem & ->) | [_ ->]]];
      [done | by rewrite Hrem in Hunset | done].
Qed.

(** One received event keeps the timer armed only in [preAccepted], and
    what follows is received in the same role. *)
Lemma receivable_step (bits : N) (pe : epaxos Command * event Command) evs
    inst inst' out :
  timerInv inst → receivable inst (pe :: evs) →
  exec (step bits pe) inst = Done (inst', out) →
  timerInv inst' ∧ receivable inst' evs.
Proof.
  intros Hinv [Hevs | [Hunset Hevs]] Hstep;
    apply Forall_cons in Hevs as [Hpe Hevs].
  - split; [| by left].
    apply (step_timerInv bits pe inst inst' out); [| done | done].
    destruct pe as [p [[pa | | paReply | a | | c] |]]; done.
  - pose proof (step_unarmed bits pe inst inst' out Hpe Hunset Hstep) as Hunset'.
    split; [| by right]. intros Hset. congruence.
Qed.

Lemma receivable_prefix inst (evs1 evs2 : list (epaxos Command * event Command)) :
  receivable inst (evs1 ++ evs2) → receivable inst evs1.
Proof.
  intros [Hevs | [Hunset Hevs]]; apply Forall_app in Hevs as [Hevs _];
    [by left | by right].
Qed.

Lemma run_timerInv (bits : N) (evs : list (epaxos Command * event Command))
    inst inst' out :
  timerInv inst → receivable inst evs →
  exec (run bits evs) inst = Done (inst', out) → timerInv inst'.
Proof.
  revert inst out. induction evs as [| pe evs IH]; intros inst out Hinv Hevs Hrun.
  - by apply exec_run_nil in Hrun as [-> _].
  - apply exec_run_cons_inv in Hrun
      as (inst1 & out1 & out2 & Hstep & Hrun & _).
    destruct (receivable_step bits pe evs inst inst1 out1 Hinv Hevs Hstep)
      as [Hinv1 Hevs1].
    by apply (IH inst1 out2).
Qed.

(** C7: the timer's callback never reaches an instance outside
    [preAccepted], so the [assertState] inside [transitionToAccept] never
    panics. Along the events an instance receives (on its command leader:
    the replies and ticks; on another replica: PreAccept, Accept, Commit
    and ticks), from an instance whose timer is armed only in
    [preAccepted] (as [newInstance] makes it), at every point of the run
    the timer is armed only in [preAccepted], a tick that fires the timer
    finds the instance in [preAccepted], every tick returns, and the run
    never panics on a state assertion. *)
Theorem timer_fires_only_in_preAccepted (bits : N)
    (evs : list (epaxos Command * event Command)) inst :
  timerInv inst → receivable inst evs →
  (∀ evs1 evs2 inst1 out1,
     evs = evs1 ++ evs2 →
     exec (run bits evs1) inst = Done (inst1, out1) →
     (isSet (slowPathTimer inst1) = true → state inst1 = preAccepted)
     ∧ ((tickTimer (slowPathTimer inst1)).2 = true → state inst1 = preAccepted)
     ∧ ∃ inst2 out2, exec onTick inst1 = Done (inst2, out2))
  ∧ (∀ found expected,
       exec (run bits evs) inst ≠ Panicked (UnexpectedState found expected)).
Proof.
  intros Hinv Hevs.
  assert (∀ evs1 evs2 inst1 out1,
            evs = evs1 ++ evs2 →
            exec (run bits evs1) inst = Done (inst1, out1) → timerInv inst1)
    as Hreach.
  { intros evs1 evs2 inst1 out1 -> Hrun.
    apply (run_timerInv bits evs1 inst inst1 out1); [done | | done].
    by apply (receivable_prefix inst evs1 evs2). }
  split.
  - intros evs1 evs2 inst1 out1 Hsplit Hrun.
    pose proof (Hreach evs1 evs2 inst1 out1 Hsplit Hrun) as Hinv1.
    split; [exact Hinv1 |]. split; [| by apply onTick_returns].
    intros Hfire. apply Hinv1. unfold isSet. unfold tickTimer in Hfire.
    by destruct (remaining (slowPathTimer inst1)).
  - intros found expected
      (evs1 & pe & evs2 & inst1 & out1 & Hsplit & Hrun & Hstep)
      %exec_run_Panicked_inv.
    pose proof (Hreach evs1 (pe :: evs2) inst1 out1 Hsplit Hrun) as Hinv1.
    destruct pe as [p [m |]]; unfold step in Hstep; cbn [fst snd] in Hstep.
    + by apply onMessage_panics in Hstep as [[? _] | [? _]].
    + destruct (onTick_returns inst1 Hinv1) as (inst2 & out2 & Htick).
      by rewrite Htick in Hstep.
Qed.

End TimerReach.

(** The command leader's instance: a PreAcceptOK arms the timer, the
    second tick fires it, and the instance moves to [accepted]. *)
Lemma timer_fires_only_in_preAccepted_witness :
  (∀ evs1 evs2 inst1 out1,
     [(Examples.quiet3, Deliver pb.MsgPreAcceptOK); (Examples.quiet3, Tick);
      (Examples.quiet3, Tick); (Examples.quiet3, Deliver pb.MsgAcceptOK)]
     = evs1 ++ evs2 →
     exec (run 64 evs1) Examples.leader = Done (inst1, out1) →
     (isSet (slowPathTimer inst1) = true → state inst1 = preAccepted)
     ∧ ((tickTimer (slowPathTimer inst1)).2 = true → state inst1 = preAccepted)
     ∧ ∃ inst2 out2, exec onTick inst1 = Done (inst2, out2))
  ∧ (∀ found expected,
       exec (run 64 [(Examples.quiet3, Deliver pb.MsgPreAcceptOK);
                     (Examples.quiet3, Tick); (Examples.quiet3, Tick);
                     (Examples.quiet3, Deliver pb.MsgAcceptOK)])
            Examples.leader
       ≠ Panicked (UnexpectedState found expected)).
Proof.
  apply (timer_fires_only_in_preAccepted 64 _ Examples.leader).
  - intros Hset. discriminate Hset.
  - left. by repeat constructor.
Defined.

(** In that run the timer is armed after the PreAcceptOK and fires on the
    second tick, in [preAccepted]. *)
Example leader_timer_fires :
  ∃ inst1 out1 inst2,
    exec (run 64 [(Examples.quiet3, Deliver pb.MsgPreAcceptOK);
                  (Examples.quiet3, Tick)]) Examples.leader
    = Done (inst1, out1)
    ∧ state inst1 = preAccepted
    ∧ (tickTimer (slowPathTimer inst1)).2 = true
    ∧ exec onTick inst1
      = Done (inst2, [Broadcast (pb.MsgAccept (instanceStateWithoutCommand inst1))])
    ∧ state inst2 = accepted ∧ isSet (slowPathTimer inst2) = false.
Proof.
  exists (countedDown 1 (armed (set_preAcceptReplies 1 Examples.leader))), [],
         (set_state accepted
            (cancelled (countedDown 1 (armed (set_preAcceptReplies 1 Examples.leader))))).
  by vm_compute.
Qed.
